(** * Mean-time-to-update analyser (M42_mean_time_to_update/mttu.go)

    A shallow embedding of the update-lag engine of [mttu.go]: the version
    canonicaliser [canon], the three release-time resolvers with their
    caches ([timeCache.get], [goRelTime], [pyRel]), the Python manifest
    readers ([pyVersions], [cfgVersions], [addDep]), the three analysers
    ([analyzeNPM], [analyzeGo], [analyzePy]) and the statistics [mean] and
    [median].

    Modelling conventions
    - a Go [string] is a [string] of bytes; a [map[string]T] is a
      [gmap string T]; [float64] is the kernel's binary64 [float];
    - a [time.Time] is the number of nanoseconds since the epoch ([Z]); a
      [time.Duration] is an [int64] count of nanoseconds;
    - packages the program imports (x/mod/semver, encoding/json, net/http,
      go-git, time.Parse) are interfaces ([Class]es) of the operations the
      program calls; each has an executable instance further down;
    - the order in which [range] visits a map is not specified by Go: it is
      an operation [rangeOrder] of the runtime interface;
    - [strings.TrimSpace], [strings.Fields] and [strings.ToLower] are
      modelled on ASCII text: white space and letters beyond ASCII are
      bytes like any other (the patterns of [regexp] are ASCII as they
      stand);
    - [logChange] only prints and is left out. *)

From Stdlib Require Import ZArith Lia Ascii String.
From Stdlib Require Import Floats.PrimFloat Floats.FloatOps Floats.FloatAxioms Floats.SpecFloat.
From Stdlib Require Import Numbers.Cyclic.Int63.Uint63.
From Stdlib Require Import Sorting.Sorted Sorting.Permutation.
From stdpp Require Import gmap strings list fin_maps.

Local Open Scope Z_scope.

(** ** Package [strings] (byte strings, ASCII classes) *)

Module GoStrings.

Definition code (c : ascii) : N := N_of_ascii c.

Definition inRange (lo hi : N) (c : ascii) : bool :=
  ((lo <=? code c) && (code c <=? hi))%N.

Definition isDigit : ascii → bool := inRange 48 57.
Definition isUpper : ascii → bool := inRange 65 90.
Definition isLower : ascii → bool := inRange 97 122.

(** The ASCII part of [unicode.IsSpace]: tab, newline, vertical tab,
    form feed, carriage return and space. *)
Definition isSpace (c : ascii) : bool := Ascii.is_space c.

(** Membership of a byte in a cutset. *)
Fixpoint inSet (c : ascii) (cutset : string) : bool :=
  match cutset with
  | EmptyString => false
  | String d r => Ascii.eqb c d || inSet c r
  end.

Definition HasPrefix (s p : string) : bool := String.prefix p s.

(** [stripPrefix p s] is [Some r] when [s = p ++ r]. *)
Fixpoint stripPrefix (p s : string) : option string :=
  match p, s with
  | EmptyString, _ => Some s
  | String a p', String b s' => if Ascii.eqb a b then stripPrefix p' s' else None
  | String _ _, EmptyString => None
  end.

Definition TrimPrefix (s p : string) : string :=
  match stripPrefix p s with Some r => r | None => s end.

Fixpoint TrimLeftFunc (f : ascii → bool) (s : string) : string :=
  match s with
  | EmptyString => EmptyString
  | String c r => if f c then TrimLeftFunc f r else s
  end.

Fixpoint TrimRightFunc (f : ascii → bool) (s : string) : string :=
  match s with
  | EmptyString => EmptyString
  | String c r =>
      match TrimRightFunc f r with
      | EmptyString => if f c then EmptyString else String c EmptyString
      | r' => String c r'
      end
  end.

Definition TrimLeft (s cutset : string) : string :=
  TrimLeftFunc (λ c, inSet c cutset) s.

Definition TrimRight (s cutset : string) : string :=
  TrimRightFunc (λ c, inSet c cutset) s.

(** [strings.TrimSpace] on text whose white space is ASCII: the white
    space of Unicode beyond ASCII (such as U+0085 and U+00A0) is not
    trimmed here. *)
Definition TrimSpace (s : string) : string :=
  TrimRightFunc isSpace (TrimLeftFunc isSpace s).

Definition lowerByte (c : ascii) : ascii :=
  if isUpper c then ascii_of_N (code c + 32) else c.

(** [strings.ToLower] on ASCII text: the bytes A to Z are lowered and
    bytes from 0x80 up are kept, where [strings.ToLower] lowers the
    letters of Unicode and replaces bytes that are no UTF-8. *)
Fixpoint ToLower (s : string) : string :=
  match s with
  | EmptyString => EmptyString
  | String c r => String (lowerByte c) (ToLower r)
  end.

(** [strings.Split(s, sep)] for a one-byte separator. *)
Fixpoint Split (s : string) (sep : ascii) : list string :=
  match s with
  | EmptyString => [EmptyString]
  | String c r =>
      if Ascii.eqb c sep then EmptyString :: Split r sep
      else match Split r sep with
           | [] => [String c EmptyString]
           | w :: ws => String c w :: ws
           end
  end.

(** [strings.Fields] on text whose white space is ASCII: the maximal
    runs of bytes that are no ASCII white space. *)
Definition Fields (s : string) : list string := String.words s.

End GoStrings.

(** ** [time.Time], [time.Duration] and [float64] *)

Definition minDuration : Z := - 2 ^ 63.
Definition maxDuration : Z := 2 ^ 63 - 1.
Definition Hour : Z := 3600 * 1000000000.

(** [t.Sub(u)]: the difference, saturated to the range of [Duration]. *)
Definition Time_Sub (t u : Z) : Z :=
  Z.max minDuration (Z.min maxDuration (t - u)).

(** [float64(n)] for an integer below 2^63 in absolute value. *)
Definition float64 (n : Z) : float :=
  if n <? 0 then PrimFloat.opp (PrimFloat.of_uint63 (Uint63.of_Z (- n)))
  else PrimFloat.of_uint63 (Uint63.of_Z n).

(** [d.Hours()]: whole hours plus the fraction, as [time] computes it. *)
Definition Duration_Hours (d : Z) : float :=
  let hour := Z.quot d Hour in
  let nsec := Z.rem d Hour in
  (float64 hour + float64 nsec / float64 Hour)%float.

(** ** Package [golang.org/x/mod/semver]

    The program calls [semver.Canonical] and [semver.Compare]. *)

Class Semver := {
  semver_Canonical : string → string;
  semver_Compare : string → string → Z
}.


(** An executable instance, after the package's source. *)
Module semver.
Import GoStrings.

Record parsed := mkParsed {
  major : string; minor : string; patch : string;
  short : string; prerelease : string; build : string
}.

(** The leading digits of [v] and what follows them. *)
Fixpoint digits (v : string) : string * string :=
  match v with
  | String c r =>
      if isDigit c then let '(d, rest) := digits r in (String c d, rest)
      else (EmptyString, v)
  | EmptyString => (EmptyString, EmptyString)
  end.

Definition parseInt (v : string) : option (string * string) :=
  match v with
  | EmptyString => None
  | String c r =>
      if negb (isDigit c) then None
      else let '(d, rest) := digits r in
           if Ascii.eqb c "0" && negb (String.eqb d "") then None
           else Some (String c d, rest)
  end.

Definition isIdentChar (c : ascii) : bool :=
  isUpper c || isLower c || isDigit c || Ascii.eqb c "-".

Definition isNum (v : string) : bool :=
  String.eqb (snd (digits v)) "".

Definition isBadNum (v : string) : bool :=
  isNum v && (1 <? String.length v)%nat && HasPrefix v "0".

Definition consFst (c : ascii) (r : option (string * string)) : option (string * string) :=
  match r with Some (t, rest) => Some (String c t, rest) | None => None end.

(** The scanning loop of [parsePrerelease]: [cur] is [v[start:i]]. *)
Fixpoint prereleaseLoop (cur v : string) : option (string * string) :=
  let finish := if String.eqb cur "" || isBadNum cur then None
                else Some (EmptyString, v) in
  match v with
  | EmptyString => finish
  | String c r =>
      if Ascii.eqb c "+" then finish
      else if negb (isIdentChar c) && negb (Ascii.eqb c ".") then None
      else if Ascii.eqb c "." then
        if String.eqb cur "" || isBadNum cur then None
        else consFst c (prereleaseLoop EmptyString r)
      else consFst c (prereleaseLoop (cur ++ String c EmptyString) r)
  end.

Definition parsePrerelease (v : string) : option (string * string) :=
  match v with
  | String c r => if Ascii.eqb c "-" then consFst c (prereleaseLoop EmptyString r) else None
  | EmptyString => None
  end.

(** The scanning loop of [parseBuild]. *)
Fixpoint buildLoop (cur v : string) : option (string * string) :=
  match v with
  | EmptyString => if String.eqb cur "" then None else Some (EmptyString, v)
  | String c r =>
      if negb (isIdentChar c) && negb (Ascii.eqb c ".") then None
      else if Ascii.eqb c "." then
        if String.eqb cur "" then None else consFst c (buildLoop EmptyString r)
      else consFst c (buildLoop (cur ++ String c EmptyString) r)
  end.

Definition parseBuild (v : string) : option (string * string) :=
  match v with
  | String c r => if Ascii.eqb c "+" then consFst c (buildLoop EmptyString r) else None
  | EmptyString => None
  end.

(** After the patch number: optional pre-release, optional build, end. *)
Definition parseTail (ma mi pa v : string) : option parsed :=
  let pre := match v with
             | String "-" _ => match parsePrerelease v with
                               | Some (t, rest) => Some (t, rest)
                               | None => None
                               end
             | _ => Some (EmptyString, v)
             end in
  match pre with
  | None => None
  | Some (pr, v1) =>
      let bld := match v1 with
                 | String "+" _ => parseBuild v1
                 | _ => Some (EmptyString, v1)
                 end in
      match bld with
      | None => None
      | Some (b, v2) =>
          if String.eqb v2 "" then Some (mkParsed ma mi pa "" pr b) else None
      end
  end.

Definition parse (v : string) : option parsed :=
  match v with
  | String "v" v0 =>
      match parseInt v0 with
      | None => None
      | Some (ma, EmptyString) => Some (mkParsed ma "0" "0" ".0.0" "" "")
      | Some (ma, String "." v1) =>
          match parseInt v1 with
          | None => None
          | Some (mi, EmptyString) => Some (mkParsed ma mi "0" ".0" "" "")
          | Some (mi, String "." v2) =>
              match parseInt v2 with
              | None => None
              | Some (pa, v3) => parseTail ma mi pa v3
              end
          | Some (_, String _ _) => None
          end
      | Some (_, String _ _) => None
      end
  | _ => None
  end.

Definition Canonical (v : string) : string :=
  match parse v with
  | None => ""
  | Some p =>
      if negb (String.eqb (build p) "") then
        String.substring 0 (String.length v - String.length (build p)) v
      else if negb (String.eqb (short p) "") then v ++ short p
      else v
  end.

(** Go's [x < y] on strings: bytewise lexicographic. *)
Definition strLt (x y : string) : bool := String.ltb x y.

Definition compareInt (x y : string) : Z :=
  if String.eqb x y then 0
  else if (String.length x <? String.length y)%nat then -1
  else if (String.length y <? String.length x)%nat then 1
  else if strLt x y then -1 else 1.

(** [nextIdent]: the bytes before the first dot, and the rest from it. *)
Fixpoint nextIdent (x : string) : string * string :=
  match x with
  | EmptyString => (EmptyString, EmptyString)
  | String c r =>
      if Ascii.eqb c "." then (EmptyString, x)
      else let '(d, rest) := nextIdent r in (String c d, rest)
  end.

Definition compareIdent (dx dy : string) : Z :=
  let ix := isNum dx in
  let iy := isNum dy in
  if negb (Bool.eqb ix iy) then (if ix then -1 else 1)
  else if ix && (String.length dx <? String.length dy)%nat then -1
  else if ix && (String.length dy <? String.length dx)%nat then 1
  else if strLt dx dy then -1 else 1.

(** The loop of [comparePrerelease]; each round drops one separator and
    one identifier from both sides, so [fuel] = length of [x] suffices. *)
Fixpoint prereleaseRounds (fuel : nat) (x y : string) : Z :=
  match fuel with
  | O => if String.eqb x "" then -1 else 1
  | S fuel' =>
      match x, y with
      | String _ x1, String _ y1 =>
          let '(dx, x2) := nextIdent x1 in
          let '(dy, y2) := nextIdent y1 in
          if negb (String.eqb dx dy) then compareIdent dx dy
          else prereleaseRounds fuel' x2 y2
      | _, _ => if String.eqb x "" then -1 else 1
      end
  end.

Definition comparePrerelease (x y : string) : Z :=
  if String.eqb x y then 0
  else if String.eqb x "" then 1
  else if String.eqb y "" then -1
  else prereleaseRounds (String.length x) x y.

Definition Compare (v w : string) : Z :=
  match parse v, parse w with
  | None, None => 0
  | None, Some _ => -1
  | Some _, None => 1
  | Some pv, Some pw =>
      let c := compareInt (major pv) (major pw) in
      if negb (c =? 0) then c else
      let c := compareInt (minor pv) (minor pw) in
      if negb (c =? 0) then c else
      let c := compareInt (patch pv) (patch pw) in
      if negb (c =? 0) then c else
      comparePrerelease (prerelease pv) (prerelease pw)
  end.



End semver.

#[export] Instance xmod_semver : Semver := {
  semver_Canonical := semver.Canonical;
  semver_Compare := semver.Compare
}.

(** ** The world outside the program *)

(** A commit object of go-git: [c.Hash.String()], [c.Author.When] and
    [c.File(name)] followed by [Contents()] ([None] when either fails). *)
Record Commit := mkCommit {
  Hash : string;
  AuthorWhen : Z;
  File : string → option string
}.

(** The repository: the output of [git log --first-parent --reverse
    --pretty=%H -- paths] in the chosen window ([None] when the command
    fails), [git.PlainOpen] and [r.CommitObject]. *)
Class Git := {
  commitsTouchingFiles : list string → option (list string);
  PlainOpen : bool;
  CommitObject : string → option Commit
}.

(** The registries.  [http_Get n url] is the body of the [n]-th request of
    the run when it is answered with status 200, [None] otherwise.  The
    decoders stand for [json.Unmarshal] at the three response types and
    for [time.Parse(time.RFC3339, _)]. *)
Class Net := {
  http_Get : nat → string → option string;
  json_npmMeta : string → option (gmap string string);
  json_goInfo : string → option Z;
  json_pypiResp : string → option (gmap string (list string));
  time_Parse : string → option Z
}.

(** The Go runtime and [encoding/json] on a manifest: the order of one
    [range] over a map (per commit index), and the string-valued members
    of the [dependencies] object of a [package.json] text. *)
Class Runtime := {
  rangeOrder : nat → gmap string string → list (string * string);
  json_dependencies : string → gmap string string
}.

Class RangeVisitsAll `{Runtime} : Prop :=
  rangeOrder_perm : ∀ i m, rangeOrder i m ≡ₚ map_to_list m.

(** ** Data structures of [mttu.go] *)

Record delay := mkDelay {
  Dep : string;
  OldVer : string;
  NewVer : string;
  Days : float;
  CommitHash : string;
  CommitDate : Z
}.

(** The three caches have one type, [map[string]map[string]time.Time];
    [requests] is the list of URLs fetched so far, latest first. *)
Record netstate := mkNet {
  data : gmap string (gmap string Z);
  requests : list string
}.

Definition lookup2 (d : gmap string (gmap string Z)) (pkg ver : string) : option Z :=
  match d !! pkg with
  | Some m => m !! ver
  | None => None
  end.

(** [d[pkg][ver] = t], creating the inner map when it is missing. *)
Definition store2 (d : gmap string (gmap string Z)) (pkg ver : string) (t : Z)
  : gmap string (gmap string Z) :=
  match d !! pkg with
  | Some m => <[pkg := <[ver := t]> m]> d
  | None => <[pkg := {[ver := t]}]> d
  end.

(** The addresses that the resolvers fetch. *)
Definition npmURL (pkg : string) : string := "https://registry.npmjs.org/" +:+ pkg.
Definition goURL (module ver : string) : string :=
  "https://proxy.golang.org/" +:+ module +:+ "/@v/" +:+ ver +:+ ".info".
Definition pypiURL (pkg : string) : string :=
  "https://pypi.org/pypi/" +:+ pkg +:+ "/json".

Section Resolvers.
Context `{Net}.

(** One [http.Get]: the request is recorded, the body returned. *)
Definition get (url : string) (n : netstate) : netstate * option string :=
  (mkNet (data n) (url :: requests n), http_Get (length (requests n)) url).

(** [(c *timeCache) get(pkg, ver)] *)
Definition timeCache_get (pkg ver : string) (n : netstate) : netstate * option Z :=
  match lookup2 (data n) pkg ver with
  | Some t => (n, Some t)
  | None =>
      let '(n1, resp) := get (npmURL pkg) n in
      match resp with
      | None => (n1, None)
      | Some body =>
          match json_npmMeta body with
          | None => (n1, None)
          | Some meta =>
              let m := omap time_Parse meta in
              (mkNet (<[pkg := m]> (data n1)) (requests n1), m !! ver)
          end
      end
  end.

(** [goRelTime(module, ver)] *)
Definition goRelTime (module ver : string) (n : netstate) : netstate * option Z :=
  match lookup2 (data n) module ver with
  | Some t => (n, Some t)
  | None =>
      let '(n1, resp) := get (goURL module ver) n in
      match resp with
      | None => (n1, None)
      | Some b =>
          match json_goInfo b with
          | None => (n1, None)
          | Some t => (mkNet (store2 (data n1) module ver t) (requests n1), Some t)
          end
      end
  end.

(** [pyRel(pkg, ver)] *)
Definition pyRel (pkg ver : string) (n : netstate) : netstate * option Z :=
  let pkg := GoStrings.ToLower pkg in
  match lookup2 (data n) pkg ver with
  | Some t => (n, Some t)
  | None =>
      let '(n1, resp) := get (pypiURL pkg) n in
      match resp with
      | None => (n1, None)
      | Some body =>
          match json_pypiResp body with
          | None => (n1, None)
          | Some releases =>
              match default [] (releases !! ver) with
              | [] => (n1, None)
              | up :: _ =>
                  match time_Parse up with
                  | None => (n1, None)
                  | Some t => (mkNet (store2 (data n1) pkg ver t) (requests n1), Some t)
                  end
              end
          end
      end
  end.

End Resolvers.

(** ** Manifest readers *)

Module Manifest.
Import GoStrings.

(** [\s] of Go's regexp: tab, newline, form feed, carriage return, space
    (no vertical tab, unlike [unicode.IsSpace]). *)
Definition reSpace (c : ascii) : bool := inSet c (String "009" (String "010" (String "012" (String "013" " ")))).

(** The longest prefix of bytes in a class, and the rest. *)
Fixpoint span (f : ascii → bool) (s : string) : string * string :=
  match s with
  | EmptyString => (EmptyString, EmptyString)
  | String c r =>
      if f c then let '(a, b) := span f r in (String c a, b)
      else (EmptyString, s)
  end.

Fixpoint allBytes (f : ascii → bool) (s : string) : bool :=
  match s with
  | EmptyString => true
  | String c r => f c && allBytes f r
  end.

(** [bufio.Scanner] with the default split function and buffer: the lines
    of the text without their end-of-line marker; a line of 64 KiB or more
    ends the scan. *)
Definition dropCR (l : string) : string :=
  match String.rev l with
  | String "013" r => String.rev r
  | _ => l
  end.

Fixpoint dropLastEmpty (ls : list string) : list string :=
  match ls with
  | [] => []
  | [EmptyString] => []
  | l :: r => l :: dropLastEmpty r
  end.

Fixpoint scanTokens (ls : list string) : list string :=
  match ls with
  | [] => []
  | l :: r =>
      if (N.of_nat (String.length l) <? 65536)%N then dropCR l :: scanTokens r
      else []
  end.

Definition ScanLines (txt : string) : list string :=
  scanTokens (dropLastEmpty (Split txt "010")).

(** *** package.json *)

Definition npmVersions `{Runtime} (js : string) : gmap string string :=
  (λ s, TrimLeft s "^~>=< ") <$> json_dependencies js.

(** *** go.mod *)

Definition isWord (c : ascii) : bool :=
  isDigit c || isUpper c || isLower c || Ascii.eqb c "_".

Definition isBlank (c : ascii) : bool := Ascii.eqb c "009" || Ascii.eqb c " ".

(** Whether [reqLine] = [^[\t ]*([\w./\-]+)[\t ]+v[^\s]+] matches. *)
Definition reqLine_matches (l : string) : bool :=
  let '(_, l1) := span isBlank l in
  let '(name, l2) := span (λ c, isWord c || inSet c "./-") l1 in
  let '(gap, l3) := span isBlank l2 in
  negb (String.eqb name "") && negb (String.eqb gap "") &&
  match l3 with
  | String "v" (String c _) => negb (reSpace c)
  | _ => false
  end.

Definition goLine (st : bool * gmap string string) (line : string)
  : bool * gmap string string :=
  let '(inBlock, m) := st in
  let l := TrimSpace line in
  if HasPrefix l "require (" then (true, m)
  else if inBlock && String.eqb l ")" then (false, m)
  else if negb inBlock && negb (HasPrefix l "require ") then (inBlock, m)
  else
    let l := TrimPrefix l "require" in
    if reqLine_matches l then
      match Fields (TrimSpace l) with
      | p0 :: p1 :: _ => (inBlock, <[p0 := p1]> m)
      | _ => (inBlock, m)
      end
    else (inBlock, m).

Definition goVersions (txt : string) : gmap string string :=
  snd (foldl goLine (false, ∅) (ScanLines txt)).

(** *** requirements.txt *)

Definition isReqName (c : ascii) : bool :=
  isUpper c || isLower c || isDigit c || inSet c "_.-".

Definition isReqVer (c : ascii) : bool :=
  isDigit c || isUpper c || isLower c || inSet c ".+-".

(** Submatches 1 and 2 of [reqRx] =
    [^([A-Za-z0-9_.\-]+)==([0-9A-Za-z.+\-]+)$]. *)
Definition reqRx (l : string) : option (string * string) :=
  let '(name, rest) := span isReqName l in
  if String.eqb name "" then None
  else match stripPrefix "==" rest with
       | None => None
       | Some ver =>
           if negb (String.eqb ver "") && allBytes isReqVer ver
           then Some (name, ver) else None
       end.

Definition pyLine (m : gmap string string) (line : string) : gmap string string :=
  let l := TrimSpace line in
  if HasPrefix l "#" || String.eqb l "" then m
  else match reqRx l with
       | Some (name, ver) => <[ToLower name := ver]> m
       | None => m
       end.

Definition pyVersions (txt : string) : gmap string string :=
  foldl pyLine ∅ (ScanLines txt).

(** *** setup.cfg *)

(** Submatch 1 of [keyRx]: the literal install_requires, spaces, an equals
    sign, spaces, and then the captured rest of the line. *)
Definition keyRx (l : string) : option string :=
  match stripPrefix "install_requires" l with
  | None => None
  | Some r =>
      match TrimLeftFunc reSpace r with
      | String "=" r' => Some (TrimLeftFunc reSpace r')
      | _ => None
      end
  end.

Definition isOp (c : ascii) : bool := inSet c "><=!~".

(** Submatches 1 and 2 of the local [depLineRx] of [cfgVersions]: group 1
    is one byte that is none of # ; or a space followed by the longest run
    of bytes that are neither an operator byte (one of > < = ! ~) nor a
    space; then spaces; then the optional group 2, an operator byte
    followed by at least one more byte; then the end of the line. *)
Definition depLineRx (line : string) : option (string * string) :=
  match line with
  | EmptyString => None
  | String c0 r =>
      if inSet c0 "#;" || reSpace c0 then None
      else
        let '(run, r1) := span (λ c, negb (isOp c || reSpace c)) r in
        let r2 := TrimLeftFunc reSpace r1 in
        match r2 with
        | EmptyString => Some (String c0 run, EmptyString)
        | String o (String _ _) =>
            if isOp o then Some (String c0 run, r2) else None
        | String _ EmptyString => None
        end
  end.

(** [addDep(rx, dst, line)] *)
Definition addDep (rx : string → option (string * string))
    (dst : gmap string string) (line : string) : gmap string string :=
  if String.eqb line "" || HasPrefix line "#" then dst
  else match rx line with
       | Some (mm1, mm2) =>
           let name := ToLower mm1 in
           let ver := TrimLeft mm2 "=<>!~ " in
           <[name := ver]> dst
       | None => dst
       end.

Definition cfgLine (st : bool * gmap string string) (raw : string)
  : bool * gmap string string :=
  let '(inBlock, deps) := st in
  let l := TrimRight raw (String "013" (String "009" " ")) in
  let inBlock := if HasPrefix l "[" then false else inBlock in
  match keyRx l with
  | Some m1 =>
      let tail := TrimSpace m1 in
      if negb (String.eqb tail "")
      then (true, foldl (addDep depLineRx) deps (Split tail ","))
      else (true, deps)
  | None =>
      if inBlock then
        if String.eqb (TrimSpace l) "" then (false, deps)
        else match raw with
             | String c _ =>
                 if isBlank c then (inBlock, addDep depLineRx deps (TrimSpace l))
                 else (false, deps)
             | EmptyString => (false, deps)
             end
      else (inBlock, deps)
  end.

Definition cfgVersions (txt : string) : gmap string string :=
  snd (foldl cfgLine (false, ∅) (Split txt "010")).

(** A name is lower-case when [ToLower] keeps it; it then holds none of
    the bytes A to Z. *)
Definition lowerCase (k : string) : Prop := ToLower k = k.

Definition keysLower (m : gmap string string) : Prop :=
  ∀ k v, m !! k = Some v → lowerCase k.

End Manifest.

(** ** The analysers *)

(** The global flags that the analysers read. *)
Class Flags := {
  maxCommits : Z;
  maxChanges : Z;
  lookBackDays : Z
}.

(** The variables of one analyser run: [prev], [out] and the cache of the
    ecosystem's resolver.  [noise] is not a variable of the program: it
    counts the candidates dropped by the plausibility guard, so that
    statements about them can be made. *)
Record state := mkState {
  prev : gmap string string;
  out : list delay;
  net : netstate;
  noise : nat
}.

(** How an iteration of the inner loop ends: it falls through or
    [continue]s ([Next]), or it leaves through [break CommitLoop]. *)
Inductive ctl :=
  | Next (s : state)
  | Break (s : state).

Definition final (r : ctl) : state :=
  match r with Next s => s | Break s => s end.

Definition halted (r : ctl) : bool :=
  match r with Next _ => false | Break _ => true end.

Definition implausible (diff : float) : bool :=
  (diff <? 0)%float || (365 <? diff)%float.

Definition lagDays (when rel : Z) : float :=
  (Duration_Hours (Time_Sub when rel) / 24)%float.

(** [for k, v := range src { dst[k] = v }] *)
Definition copyInto (src dst : gmap string string) : gmap string string :=
  map_fold (λ k v acc, <[k := v]> acc) dst src.

Section Engine.
Context `{Semver} `{Git} `{Runtime} `{Flags}.

Definition canon (v : string) : string :=
  let vTemp := semver_Canonical v in
  let v := if String.eqb vTemp "" && negb (GoStrings.HasPrefix v "v")
           then "v" +:+ v else v in
  semver_Canonical v.

(** The resolver of the ecosystem, e.g. [npmTimes.get]. *)
Variable relTime : string → string → netstate → netstate * option Z.

(** The manifest of a commit read into [curr]; [None] is [continue]. *)
Variable snapshot : Commit → option (gmap string string).

(** The record that an accepted change appends to [out]. *)
Definition sample (c : Commit) (dep oldV newV : string) (rel : Z) : delay :=
  mkDelay dep oldV newV (lagDays (AuthorWhen c) rel)
          (String.substring 0 7 (Hash c)) (AuthorWhen c).

(** [len(out) >= maxChanges] under [maxChanges > 0]. *)
Definition budgetReached (o : list delay) : bool :=
  (0 <? maxChanges) && (maxChanges <=? Z.of_nat (length o)).

(** From the resolver call to the end of the loop body: [old] and [new]
    are canonical and [old] is below [new]. *)
Definition upgrade (c : Commit) (dep oldV newV : string) (s : state) : ctl :=
  let '(n1, r) := relTime dep newV (net s) in
  match r with
  | None => Next (mkState (prev s) (out s) n1 (noise s))
  | Some rel =>
      let diff := lagDays (AuthorWhen c) rel in
      if implausible diff then Next (mkState (prev s) (out s) n1 (S (noise s)))
      else
        let out1 := out s ++ [sample c dep oldV newV rel] in
        if budgetReached out1
        then Break (mkState (prev s) out1 n1 (noise s))
        else Next (mkState (<[dep := newV]> (prev s)) out1 n1 (noise s))
  end.

(** The body of [for dep, newV := range curr]. *)
Definition depStep (c : Commit) (dep newV : string) (s : state) : ctl :=
  match prev s !! dep with
  | None => Next s
  | Some oldV =>
      if String.eqb oldV newV then Next s
      else
        let old := canon oldV in
        let new := canon newV in
        if String.eqb old "" || String.eqb new "" then Next s
        else if 0 <=? semver_Compare old new then Next s
        else upgrade c dep oldV newV s
  end.



Fixpoint rangeCurr (c : Commit) (curr : list (string * string)) (s : state) : ctl :=
  match curr with
  | [] => Next s
  | (dep, newV) :: rest =>
      match depStep c dep newV s with
      | Next s1 => rangeCurr c rest s1
      | Break s1 => Break s1
      end
  end.

(** [CommitLoop: for idx, h := range hashes], from index [idx] on. *)
Fixpoint commitLoop (idx : nat) (hashes : list string) (s : state) : ctl :=
  match hashes with
  | [] => Next s
  | h :: rest =>
      match CommitObject h with
      | None => commitLoop (S idx) rest s
      | Some c =>
          match snapshot c with
          | None => commitLoop (S idx) rest s
          | Some curr =>
              if Nat.eqb idx 0
              then commitLoop (S idx) rest (mkState curr (out s) (net s) (noise s))
              else match rangeCurr c (rangeOrder idx curr) s with
                   | Next s1 => commitLoop (S idx) rest s1
                   | Break s1 => Break s1
                   end
          end
      end
  end.

(** [hashes = hashes[:maxCommits]] under its guard. *)
Definition capCommits (hashes : list string) : list string :=
  if (0 <? maxCommits) && (maxCommits <? Z.of_nat (length hashes))
  then take (Z.to_nat maxCommits) hashes else hashes.

(** An analyser up to its [return out, nil]; [None] is an error return.
    [n0] is the resolver's cache when the analyser starts. *)
Definition analyse (paths : list string) (n0 : netstate) : option ctl :=
  match commitsTouchingFiles paths with
  | None => None
  | Some hashes =>
      if PlainOpen
      then Some (commitLoop 0 (capCommits hashes) (mkState ∅ [] n0 0))
      else None
  end.

(** *** Vocabulary for the properties of the loop *)

(** A candidate that passes every guard before the resolver call. *)
Definition candidate (s : state) (dep oldV newV : string) : Prop :=
  prev s !! dep = Some oldV ∧ oldV ≠ newV ∧
  canon oldV ≠ "" ∧ canon newV ≠ "" ∧
  semver_Compare (canon oldV) (canon newV) < 0.

(** The budget [maxChanges]: below it while the loop goes on, met exactly
    when the loop is left. *)
Definition withinBudget (r : ctl) : Prop :=
  match r with
  | Next s => Z.of_nat (length (out s)) < maxChanges
  | Break s => Z.of_nat (length (out s)) = maxChanges
  end.

(** The ways in which the loop body turns a declared version down. *)
Inductive rejected (s : state) (dep newV : string) : Prop :=
  | rejected_same :
      prev s !! dep = Some newV → rejected s dep newV
  | rejected_invalid oldV :
      prev s !! dep = Some oldV → canon oldV = "" ∨ canon newV = "" →
      rejected s dep newV
  | rejected_not_greater oldV :
      prev s !! dep = Some oldV →
      0 ≤ semver_Compare (canon oldV) (canon newV) →
      rejected s dep newV
  | rejected_unresolved oldV :
      prev s !! dep = Some oldV → (relTime dep newV (net s)).2 = None →
      rejected s dep newV.

End Engine.

Section Analysers.
Context `{Semver} `{Git} `{Runtime} `{Flags} `{Net}.

Definition snapshotNPM (c : Commit) : option (gmap string string) :=
  match File c "package.json" with
  | None => None
  | Some cont => Some (Manifest.npmVersions cont)
  end.

Definition snapshotGo (c : Commit) : option (gmap string string) :=
  match File c "go.mod" with
  | None => None
  | Some cont => Some (Manifest.goVersions cont)
  end.

(** [readFileFromCommit] succeeded with a non-empty text. *)
Definition readNonEmpty (c : Commit) (name : string) : option string :=
  match File c name with
  | Some txt => if String.eqb txt "" then None else Some txt
  | None => None
  end.

Definition mergedPy (c : Commit) : gmap string string :=
  let curr := ∅ in
  let curr := match readNonEmpty c "requirements.txt" with
              | Some txt => copyInto (Manifest.pyVersions txt) curr
              | None => curr
              end in
  match readNonEmpty c "setup.cfg" with
  | Some txt => copyInto (Manifest.cfgVersions txt) curr
  | None => curr
  end.

Definition snapshotPy (c : Commit) : option (gmap string string) :=
  let curr := mergedPy c in
  if Nat.eqb (size curr) 0 then None else Some curr.

Definition runNPM := analyse timeCache_get snapshotNPM ["package.json"].
Definition runGo := analyse goRelTime snapshotGo ["go.mod"].
Definition runPy := analyse pyRel snapshotPy ["requirements.txt"; "setup.cfg"].

Definition analyzeNPM (n0 : netstate) : option (list delay) := (out ∘ final) <$> runNPM n0.
Definition analyzeGo (n0 : netstate) : option (list delay) := (out ∘ final) <$> runGo n0.
Definition analyzePy (n0 : netstate) : option (list delay) := (out ∘ final) <$> runPy n0.

End Analysers.

(** ** Statistics *)

Definition isNaN (x : float) : bool := negb (x =? x)%float.

(** The order of [sort.Float64s]: ascending, not-a-number values first. *)
Definition less (x y : float) : bool :=
  (x <? y)%float || (isNaN x && negb (isNaN y)).

Fixpoint insertSorted (x : float) (l : list float) : list float :=
  match l with
  | [] => [x]
  | y :: r => if less x y then x :: l else y :: insertSorted x r
  end.

(** [sort.Float64s(xs)], as the slice reads afterwards.  Lags are finite
    and not below zero, so the ascending arrangement is unique. *)
Definition Float64s (xs : list float) : list float :=
  foldr insertSorted [] xs.

(** No element is followed by one that is below it. *)
Definition ascending (l : list float) : Prop :=
  Sorted (λ a b, less b a = false) l.

Definition mean (xs : list float) : float :=
  if Nat.eqb (length xs) 0 then 0%float
  else
    let sum := foldl (λ sum v, (sum + v)%float) 0%float xs in
    (sum / float64 (Z.of_nat (length xs)))%float.

Definition median (xs : list float) : float :=
  if Nat.eqb (length xs) 0 then 0%float
  else
    let xs := Float64s xs in
    let m := (length xs / 2)%nat in
    if Nat.eqb (length xs mod 2) 0
    then ((default 0%float (xs !! (m - 1)%nat) + default 0%float (xs !! m)) / 2)%float
    else default 0%float (xs !! m).

(** ** Executable worlds

    Tables stand for a repository, a registry and the clock; they are
    used to run the analysers on concrete histories. *)

Fixpoint assoc {A} (k : string) (l : list (string * A)) : option A :=
  match l with
  | [] => None
  | (k', a) :: r => if String.eqb k k' then Some a else assoc k r
  end.

Definition tableGit (log : list (string * Commit)) : Git := {|
  commitsTouchingFiles := λ _, Some (log.*1);
  PlainOpen := true;
  CommitObject := λ h, assoc h log
|}.

(** Every URL of [bodies] answers 200 with its body; [pypi], [npm] and
    [goproxy] decode a body; [clock] reads a timestamp. *)
Definition tableNet (bodies : list (string * string))
    (npm : list (string * gmap string string))
    (goproxy : list (string * Z))
    (pypi : list (string * gmap string (list string)))
    (clock : list (string * Z)) : Net := {|
  http_Get := λ _ url, assoc url bodies;
  json_npmMeta := λ b, assoc b npm;
  json_goInfo := λ b, assoc b goproxy;
  json_pypiResp := λ b, assoc b pypi;
  time_Parse := λ raw, assoc raw clock
|}.

Definition tableRuntime (pkgjson : list (string * gmap string string)) : Runtime := {|
  rangeOrder := λ _ m, map_to_list m;
  json_dependencies := λ js, default ∅ (assoc js pkgjson)
|}.

Definition day : Z := 24 * Hour.

Definition commitOf (entry : string * Commit) : Commit := entry.2.


(** A commit that carries one [requirements.txt]. *)
Definition pyCommit (h : string) (when : Z) (req : string) : string * Commit :=
  (h, mkCommit h when (λ name, if String.eqb name "requirements.txt" then Some req else None)).

(** A commit in which neither manifest can be read. *)
Definition bareCommit (h : string) (when : Z) : string * Commit :=
  (h, mkCommit h when (λ _, None)).

Definition hA : string := "a1a1a1a1a1a1a1a1a1a1a1a1a1a1a1a1a1a1a1a1".
Definition hB : string := "b2b2b2b2b2b2b2b2b2b2b2b2b2b2b2b2b2b2b2b2".
Definition hC : string := "c3c3c3c3c3c3c3c3c3c3c3c3c3c3c3c3c3c3c3c3".
Definition hD : string := "d4d4d4d4d4d4d4d4d4d4d4d4d4d4d4d4d4d4d4d4".

(** 2021-01-01T00:00:00Z and the days after it. *)
Definition jan (d : Z) : Z := 1609459200 * 1000000000 + (d - 1) * day.

Definition clock21 : list (string * Z) :=
  [("2021-01-01T00:00:00Z", jan 1); ("2021-01-06T00:00:00Z", jan 6);
   ("2021-01-16T00:00:00Z", jan 16); ("2021-01-21T00:00:00Z", jan 21)].

(** PyPI knows [dep] 1.1.0 (1 Jan) and 1.2.0 (21 Jan), and [lib] 2.1.0
    (6 Jan); [late] 1.1.0 appears on 16 Jan. *)
Definition pypi21 : Net :=
  tableNet
    [("https://pypi.org/pypi/dep/json", "dep.json");
     ("https://pypi.org/pypi/lib/json", "lib.json");
     ("https://pypi.org/pypi/late/json", "late.json")]
    [] []
    [("dep.json", <["1.1.0" := ["2021-01-01T00:00:00Z"]]> (<["1.2.0" := ["2021-01-21T00:00:00Z"]]> ∅));
     ("lib.json", <["2.1.0" := ["2021-01-06T00:00:00Z"]]> ∅);
     ("late.json", <["1.1.0" := ["2021-01-16T00:00:00Z"]]> ∅)]
    clock21.

(** A registry that cannot be reached. *)
Definition offline : Net := tableNet [] [] [] [] [].

Definition rt0 : Runtime := tableRuntime [].

Definition noCap : Flags := {| maxCommits := -1; maxChanges := -1; lookBackDays := 30 |}.
Definition oneChange : Flags := {| maxCommits := -1; maxChanges := 1; lookBackDays := -1 |}.

Definition net0 : netstate := mkNet ∅ [].

(** dep 1.0.0, then 1.1.0 ten days after its release, then back to 1.0.5. *)
Definition repoScenario1 : Git :=
  tableGit [pyCommit hA (jan 2) "dep==1.0.0"; pyCommit hB (jan 11) "dep==1.1.0";
            pyCommit hC (jan 12) "dep==1.0.5"].

(** dep 1.0.0, then 1.1.0, then 1.2.0 (released on 21 Jan, taken on 25 Jan). *)
Definition repoScenario2 : Git :=
  tableGit [pyCommit hA (jan 2) "dep==1.0.0"; pyCommit hB (jan 11) "dep==1.1.0";
            pyCommit hD (jan 25) "dep==1.2.0"].

(** late 1.0.0, then 1.1.0 five days before PyPI records it. *)
Definition repoEarly : Git :=
  tableGit [pyCommit hA (jan 2) "late==1.0.0"; pyCommit hB (jan 11) "late==1.1.0"].

(** A first commit without a manifest, then dep 1.0.0, then 1.1.0. *)
Definition repoBareFirst : Git :=
  tableGit [bareCommit hD (jan 1); pyCommit hA (jan 2) "dep==1.0.0";
            pyCommit hB (jan 11) "dep==1.1.0"].

(** late and lib at 1.0.0 / 2.0.0; late moves early; then a manifest with
    lib alone, moved to 2.1.0. *)
Definition repoNoiseThenChange : Git :=
  tableGit [pyCommit hA (jan 2) ("late==1.0.0" +:+ String "010" "lib==2.0.0");
            pyCommit hB (jan 11) ("late==1.1.0" +:+ String "010" "lib==2.0.0");
            pyCommit hC (jan 12) "lib==2.1.0"].

(** dep 1.0.0, then 1.1.0. *)
Definition repoPlain : Git :=
  tableGit [pyCommit hA (jan 2) "dep==1.0.0"; pyCommit hB (jan 11) "dep==1.1.0"].

(** dep alone; then lib appears at 2.0.0; then lib moves to 2.1.0. *)
Definition repoNewDep : Git :=
  tableGit [pyCommit hA (jan 2) "dep==1.0.0";
            pyCommit hB (jan 11) ("dep==1.0.0" +:+ String "010" "lib==2.0.0");
            pyCommit hC (jan 12) ("dep==1.0.0" +:+ String "010" "lib==2.1.0")].

(** A PyPI that does not know dep 1.1.0 (only 1.2.0, of 21 Jan). *)
Definition pypiGap : Net :=
  tableNet [("https://pypi.org/pypi/dep/json", "dep.json")] [] []
    [("dep.json", <["1.2.0" := ["2021-01-21T00:00:00Z"]]> ∅)]
    clock21.

(** A module proxy with two versions of one module. *)
Definition goproxy21 : Net :=
  tableNet
    [("https://proxy.golang.org/example.com/m/@v/v1.0.0.info", "m-v1.0.0");
     ("https://proxy.golang.org/example.com/m/@v/v1.1.0.info", "m-v1.1.0")]
    [] [("m-v1.0.0", jan 1); ("m-v1.1.0", jan 6)] [] [].

(** An npm registry with two versions of one package. *)
Definition npm21 : Net :=
  tableNet [("https://registry.npmjs.org/left-pad", "left-pad.json")]
    [("left-pad.json", <["1.0.0" := "2021-01-01T00:00:00Z"]>
                         (<["1.1.0" := "2021-01-06T00:00:00Z"]>
                            (<["created" := "not a time"]> ∅)))]
    [] [] clock21.

(** The baseline after a first commit that pins one dependency. *)
Definition pinned (dep ver : string) : state :=
  mkState (<[dep := ver]> ∅) [] net0 0.

(** A commit with both Python manifests. *)
Definition bothManifests : Commit :=
  mkCommit hA (jan 2)
    (λ name, if String.eqb name "requirements.txt"
             then Some ("Flask==1.0.2" +:+ String "010" "six==1.15.0")
             else if String.eqb name "setup.cfg"
             then Some ("[options]" +:+ String "010" "install_requires = flask>=2.0")
             else None).


(** ** The rest of [mttu.go] *)

(** [validateScopeFlags]: [true] when the function returns, [false] when
    it ends the program through [log.Fatal]. *)
Definition validateScopeFlags `{Flags} : bool :=
  let active := 0 in
  let active := if 0 <? maxCommits then active + 1 else active in
  let active := if 0 <? maxChanges then active + 1 else active in
  let active := if 0 <? lookBackDays then active + 1 else active in
  if negb (active =? 1) then false else true.

Module Paths.
Import GoStrings.

(** [strings.TrimSuffix(s, suffix)] *)
Fixpoint TrimSuffix (s suffix : string) : string :=
  match s with
  | EmptyString => EmptyString
  | String c r =>
      if String.eqb s suffix then EmptyString else String c (TrimSuffix r suffix)
  end.

Definition isSlash (c : ascii) : bool := Ascii.eqb c "/".

(** [filepath.Base(path)] where the separator is the slash: trailing
    slashes go, then everything up to the last slash. *)
Definition Base (path : string) : string :=
  if String.eqb path "" then "."
  else
    let path := TrimRightFunc isSlash path in
    let path := List.last (Split path "/") EmptyString in
    if String.eqb path "" then "/" else path.

(** [repoDir(url)] *)
Definition repoDir (url : string) : string :=
  let base := Base (TrimSuffix url ".git") in
  "./" +:+ base.

End Paths.

(** A version that does not begin with a byte of the cutset. *)
Definition noLeading (cutset v : string) : Prop :=
  match v with
  | EmptyString => True
  | String c _ => GoStrings.inSet c cutset = false
  end.


(** What [canon] relies on in [semver.Canonical]: it is idempotent, it
    rejects what does not begin with v, and a v alone is no version. *)
Class SemverCanonical `{Semver} : Prop := {
  semver_Canonical_idem : ∀ v, semver_Canonical (semver_Canonical v) = semver_Canonical v;
  semver_Canonical_prefix : ∀ v, GoStrings.HasPrefix v "v" = false → semver_Canonical v = "";
  semver_Canonical_bare : semver_Canonical "v" = ""
}.

(** ** Shapes of what the readers and the walk produce *)

Section Shapes.
Import GoStrings Manifest semver.

(** An entry as [pyVersions] writes it. *)
Definition pinned_entry (k v : string) : Prop :=
  k ≠ "" ∧ allBytes isReqName k = true ∧ ToLower k = k
  ∧ v ≠ "" ∧ allBytes isReqVer v = true.

(** An entry as [cfgVersions] writes it. *)
Definition cfg_entry (k v : string) : Prop :=
  k ≠ "" ∧ noLeading "=<>!~ " v.

(** A byte that [strings.Fields] does not split at. *)
Definition nonSpace (c : ascii) : bool := negb (isSpace c).

(** The bytes of a module path in [reqLine]. *)
Definition isModByte (c : ascii) : bool := isWord c || inSet c "./-".

(** An entry as [goVersions] writes it. *)
Definition require_entry (k v : string) : Prop :=
  k ≠ "" ∧ allBytes isModByte k = true ∧ ∃ w, v = String "v" w.

(** Whether [v] begins with the byte [c]. *)
Definition headIs (c : ascii) (v : string) : bool :=
  match v with String x _ => Ascii.eqb x c | EmptyString => false end.

(** A number as [parseInt] reads it: digits, without a leading zero
    unless it is the digit zero alone. *)
Definition intShape (t : string) : Prop :=
  ∃ c ds, t = String c ds ∧ isDigit c = true ∧ allBytes isDigit ds = true
          ∧ Ascii.eqb c "0" && negb (String.eqb ds "") = false.

Definition noDigitHead (r : string) : Prop :=
  match r with EmptyString => True | String c _ => isDigit c = false end.

Definition stopHead (r : string) : Prop :=
  match r with EmptyString => True | String c _ => c = "+"%char end.

(** Every entry of the baseline and both versions of every record
    satisfy [E]. *)
Definition entriesOK (E : string → string → Prop) (s : state) : Prop :=
  (∀ k v, prev s !! k = Some v → E k v)
  ∧ Forall (λ d, E (Dep d) (OldVer d) ∧ E (Dep d) (NewVer d)) (out s).

(** A byte of the ASCII range, on which [GoStrings.ToLower] is
    [strings.ToLower]. *)
Definition isASCII (c : ascii) : bool := (code c <? 128)%N.

End Shapes.

Section WalkShapes.
Context `{SV : Semver} `{FL : Flags}.
Variable relTime : string → string → netstate → netstate * option Z.

(** A property of states that every step of the walk keeps. *)
Definition stepInvariant (I : state → Prop) : Prop :=
  (∀ s curr, I s → I (mkState curr (out s) (net s) (noise s)))
  ∧ (∀ c dep newV s, I s → I (final (depStep relTime c dep newV s))).

(** A record as the loop body makes it: a strict upgrade between two
    canonical versions with a lag that is neither negative nor above 365
    days. *)
Definition soundRecord (d : delay) : Prop :=
  OldVer d ≠ NewVer d
  ∧ canon (OldVer d) ≠ "" ∧ canon (NewVer d) ≠ ""
  ∧ semver_Compare (canon (OldVer d)) (canon (NewVer d)) < 0
  ∧ (Days d <? 0)%float = false ∧ (365 <? Days d)%float = false.

End WalkShapes.

(** ** Further worlds *)

(** A commit that carries one [go.mod]. *)
Definition goCommit (h : string) (when : Z) (gomod : string) : string * Commit :=
  (h, mkCommit h when (λ name, if String.eqb name "go.mod" then Some gomod else None)).

(** A commit that carries one [package.json]. *)
Definition npmCommit (h : string) (when : Z) (js : string) : string * Commit :=
  (h, mkCommit h when (λ name, if String.eqb name "package.json" then Some js else None)).

(** example.com/m at v1.0.0, then at v1.1.0 five days after its release. *)
Definition repoGo : Git :=
  tableGit [goCommit hA (jan 2) "require example.com/m v1.0.0";
            goCommit hB (jan 11) "require example.com/m v1.1.0"].

(** Two [package.json] texts and what [encoding/json] reads in them. *)
Definition rtNPM : Runtime :=
  tableRuntime [("package-1.json", <["left-pad" := "^1.0.0"]> ∅);
                ("package-2.json", <["left-pad" := "~1.1.0"]> ∅)].

(** left-pad in the range of 1.0.0, then of 1.1.0 five days after its
    release. *)
Definition repoNPM : Git :=
  tableGit [npmCommit hA (jan 2) "package-1.json";
            npmCommit hB (jan 11) "package-2.json"].


(** * Examples of the readers and of [semver] *)

Example Canonical_short : semver.Canonical "v1.2" = "v1.2.0". Proof. reflexivity. Qed.
Example Canonical_build : semver.Canonical "v1.2.3-rc.1+b7" = "v1.2.3-rc.1". Proof. reflexivity. Qed.
Example Canonical_bad : semver.Canonical "1.2.3" = "". Proof. reflexivity. Qed.
Example Canonical_lead0 : semver.Canonical "v1.02.3" = "". Proof. reflexivity. Qed.
Example Compare_num : semver.Compare "v1.9.0" "v1.10.0" = -1. Proof. reflexivity. Qed.
Example Compare_pre : semver.Compare "v1.0.0-rc.1" "v1.0.0" = -1. Proof. reflexivity. Qed.
Example Compare_pre2 : semver.Compare "v1.0.0-alpha.1" "v1.0.0-alpha.beta" = -1. Proof. reflexivity. Qed.
Example Compare_pre3 : semver.Compare "v1.0.0-alpha" "v1.0.0-alpha.1" = -1. Proof. reflexivity. Qed.

Example pyVersions_ex :
  Manifest.pyVersions ("# pins" +:+ String "010" ("Flask==1.0.2" +:+ String "010" ("requests>=2" +:+ String "010" " numpy==1.19.0 ")))
  = <["numpy" := "1.19.0"]> (<["flask" := "1.0.2"]> ∅).
Proof. vm_compute. reflexivity. Qed.

Example cfgVersions_ex :
  Manifest.cfgVersions ("[options]" +:+ String "010" ("install_requires =" +:+ String "010"
     ("    Flask>=2.0" +:+ String "010" ("    six" +:+ String "010" ("" +:+ String "010" "    ignored==1")))))
  = <["six" := ""]> (<["flask" := "2.0"]> ∅).
Proof. vm_compute. reflexivity. Qed.

Example cfgVersions_inline :
  Manifest.cfgVersions "install_requires = Django>=3.2,six" = <["six" := ""]> (<["django" := "3.2"]> ∅).
Proof. vm_compute. reflexivity. Qed.

Example goVersions_ex :
  Manifest.goVersions ("module m" +:+ String "010" ("require a.b/c v1.2.3" +:+ String "010" ("require (" +:+ String "010"
     ("  x/y v0.1.0 // indirect" +:+ String "010" ")"))))
  = <["x/y" := "v0.1.0"]> (<["a.b/c" := "v1.2.3"]> ∅).
Proof. vm_compute. reflexivity. Qed.

(** * Properties of the update-lag engine *)

Section EngineFacts.
Context `{SV : Semver} `{GIT : Git} `{RT : Runtime} `{FL : Flags}.
Variable relTime : string → string → netstate → netstate * option Z.
Variable snapshot : Commit → option (gmap string string).

Lemma depStep_absent c dep newV s :
  prev s !! dep = None → depStep relTime c dep newV s = Next s.
Proof. intros Hp. unfold depStep. now rewrite Hp. Qed.

Lemma depStep_same c dep v s :
  prev s !! dep = Some v → depStep relTime c dep v s = Next s.
Proof. intros Hp. unfold depStep. rewrite Hp. now rewrite String.eqb_refl. Qed.

Lemma depStep_invalid c dep oldV newV s :
  prev s !! dep = Some oldV → canon oldV = "" ∨ canon newV = "" →
  depStep relTime c dep newV s = Next s.
Proof.
  intros Hp Hbad. unfold depStep. rewrite Hp.
  destruct (String.eqb oldV newV); [reflexivity|].
  destruct Hbad as [-> | ->]; simpl; [reflexivity|].
  now rewrite orb_true_r.
Qed.

Lemma depStep_not_greater c dep oldV newV s :
  prev s !! dep = Some oldV → 0 ≤ semver_Compare (canon oldV) (canon newV) →
  depStep relTime c dep newV s = Next s.
Proof.
  intros Hp Hge. unfold depStep. rewrite Hp.
  destruct (String.eqb oldV newV); [reflexivity|].
  destruct (_ || _); [reflexivity|].
  apply Z.leb_le in Hge. now rewrite Hge.
Qed.

Lemma depStep_candidate c dep oldV newV s :
  candidate s dep oldV newV →
  depStep relTime c dep newV s = upgrade relTime c dep oldV newV s.
Proof.
  intros (Hp & Hne & Ho & Hn & Hlt). unfold depStep. rewrite Hp.
  apply String.eqb_neq in Hne, Ho, Hn. rewrite Hne, Ho, Hn. simpl.
  destruct (Z.leb_spec 0 (semver_Compare (canon oldV) (canon newV))); [lia|reflexivity].
Qed.

Lemma upgrade_unresolved c dep oldV newV s n1 :
  relTime dep newV (net s) = (n1, None) →
  upgrade relTime c dep oldV newV s = Next (mkState (prev s) (out s) n1 (noise s)).
Proof. intros Hr. unfold upgrade. now rewrite Hr. Qed.

Lemma upgrade_resolved c dep oldV newV s n1 rel :
  relTime dep newV (net s) = (n1, Some rel) →
  upgrade relTime c dep oldV newV s =
    if implausible (lagDays (AuthorWhen c) rel)
    then Next (mkState (prev s) (out s) n1 (S (noise s)))
    else if budgetReached (out s ++ [sample c dep oldV newV rel])
         then Break (mkState (prev s) (out s ++ [sample c dep oldV newV rel]) n1 (noise s))
         else Next (mkState (<[dep := newV]> (prev s))
                            (out s ++ [sample c dep oldV newV rel]) n1 (noise s)).
Proof. intros Hr. unfold upgrade. now rewrite Hr. Qed.

(** An iteration for [dep] writes no other entry of [prev]. *)
Lemma depStep_prev_other c dep newV s k :
  k ≠ dep → prev (final (depStep relTime c dep newV s)) !! k = prev s !! k.
Proof.
  intros Hk. unfold depStep, upgrade.
  repeat (case_match; simpl; try reflexivity).
  now rewrite lookup_insert_ne.
Qed.


Lemma rangeCurr_app c l1 l2 s :
  rangeCurr relTime c (l1 ++ l2) s =
    match rangeCurr relTime c l1 s with
    | Next s1 => rangeCurr relTime c l2 s1
    | Break s1 => Break s1
    end.
Proof.
  revert s. induction l1 as [|[d v] l1 IH]; intros s; simpl; [reflexivity|].
  destruct (depStep relTime c d v s); [apply IH | reflexivity].
Qed.

Lemma rangeCurr_prev_other c l s k :
  k ∉ l.*1 → prev (final (rangeCurr relTime c l s)) !! k = prev s !! k.
Proof.
  revert s. induction l as [|[d v] l IH]; intros s Hk; simpl; [reflexivity|].
  simpl in Hk. apply not_elem_of_cons in Hk as [Hd Hl].
  pose proof (depStep_prev_other c d v s k Hd) as Hs.
  destruct (depStep relTime c d v s) as [s1|s1]; simpl in *; [|exact Hs].
  rewrite IH by exact Hl. exact Hs.
Qed.


(** One commit past the first: the inner loop over its snapshot. *)
Lemma commitLoop_single idx h c curr s :
  CommitObject h = Some c → snapshot c = Some curr →
  commitLoop relTime snapshot (S idx) [h] s
  = rangeCurr relTime c (rangeOrder (S idx) curr) s.
Proof.
  intros Hc Hs. simpl. rewrite Hc, Hs.
  now destruct (rangeCurr relTime c (rangeOrder (S idx) curr) s).
Qed.

(** A commit that yields no manifest is passed over. *)
Lemma commitLoop_skip idx h rest s :
  CommitObject h = None ∨ (∃ c, CommitObject h = Some c ∧ snapshot c = None) →
  commitLoop relTime snapshot idx (h :: rest) s
  = commitLoop relTime snapshot (S idx) rest s.
Proof.
  intros [Hc | (c & Hc & Hs)]; simpl; rewrite Hc; [reflexivity|].
  now rewrite Hs.
Qed.

(** Past index 0 nothing enters [prev]: without a baseline the loop does
    nothing at all. *)
Lemma commitLoop_no_baseline idx hashes s :
  prev s = ∅ → commitLoop relTime snapshot (S idx) hashes s = Next s.
Proof.
  revert idx s. induction hashes as [|h rest IH]; intros idx s Hp; simpl; [reflexivity|].
  destruct (CommitObject h) as [c|]; [|now apply IH].
  destruct (snapshot c) as [curr|]; [|now apply IH].
  assert (Hr : ∀ l, rangeCurr relTime c l s = Next s).
  { induction l as [|[d v] l IHl]; simpl; [reflexivity|].
    rewrite depStep_absent; [exact IHl|]. rewrite Hp. apply lookup_empty. }
  rewrite Hr. now apply IH.
Qed.


Lemma commitLoop_app idx hashes more s :
  commitLoop relTime snapshot idx (hashes ++ more) s =
    match commitLoop relTime snapshot idx hashes s with
    | Next s1 => commitLoop relTime snapshot (idx + length hashes) more s1
    | Break s1 => Break s1
    end.
Proof.
  revert idx s. induction hashes as [|h rest IH]; intros idx s; simpl.
  - now rewrite Nat.add_0_r.
  - replace (idx + S (length rest))%nat with (S idx + length rest)%nat by lia.
    destruct (CommitObject h) as [c|]; [|apply IH].
    destruct (snapshot c) as [curr|]; [|apply IH].
    destruct (Nat.eqb idx 0); [apply IH|].
    destruct (rangeCurr relTime c (rangeOrder idx curr) s); [apply IH | reflexivity].
Qed.


Lemma depStep_budget c dep newV s :
  0 < maxChanges → Z.of_nat (length (out s)) < maxChanges →
  withinBudget (depStep relTime c dep newV s).
Proof.
  intros Hpos Hlt. unfold depStep, upgrade, budgetReached.
  repeat (case_match; simpl; try exact Hlt).
  - rewrite length_app in *. simpl in *.
    match goal with Hb : _ && _ = true |- _ => apply andb_prop in Hb as [_ Hle] end.
    apply Z.leb_le in Hle. lia.
  - rewrite length_app in *. simpl in *.
    match goal with Hb : _ && _ = false |- _ => apply andb_false_iff in Hb as [Hc|Hc] end.
    + apply Z.ltb_ge in Hc. lia.
    + apply Z.leb_gt in Hc. lia.
Qed.

Lemma rangeCurr_budget c l s :
  0 < maxChanges → Z.of_nat (length (out s)) < maxChanges →
  withinBudget (rangeCurr relTime c l s).
Proof.
  intros Hpos. revert s. induction l as [|[d v] l IH]; intros s Hlt; simpl; [exact Hlt|].
  pose proof (depStep_budget c d v s Hpos Hlt) as Hs.
  destruct (depStep relTime c d v s) as [s1|s1]; simpl in *; [now apply IH | exact Hs].
Qed.

Lemma commitLoop_budget idx hashes s :
  0 < maxChanges → Z.of_nat (length (out s)) < maxChanges →
  withinBudget (commitLoop relTime snapshot idx hashes s).
Proof.
  intros Hpos. revert idx s.
  induction hashes as [|h rest IH]; intros idx s Hlt; simpl; [exact Hlt|].
  destruct (CommitObject h) as [c|]; [|now apply IH].
  destruct (snapshot c) as [curr|]; [|now apply IH].
  destruct (Nat.eqb idx 0); [now apply IH|].
  pose proof (rangeCurr_budget c (rangeOrder idx curr) s Hpos Hlt) as Hr.
  destruct (rangeCurr relTime c (rangeOrder idx curr) s) as [s1|s1];
    simpl in *; [now apply IH | exact Hr].
Qed.

Lemma depStep_rejected c dep newV s :
  rejected relTime s dep newV →
  ∃ n1, depStep relTime c dep newV s = Next (mkState (prev s) (out s) n1 (noise s)).
Proof.
  assert (Hs : Next s = Next (mkState (prev s) (out s) (net s) (noise s)))
    by now destruct s.
  intros [Hp | oldV Hp Hbad | oldV Hp Hge | oldV Hp Hr].
  - exists (net s). now rewrite depStep_same.
  - exists (net s). now rewrite (depStep_invalid c dep oldV).
  - exists (net s). now rewrite (depStep_not_greater c dep oldV).
  - unfold depStep. rewrite Hp.
    destruct (String.eqb oldV newV); [now exists (net s)|].
    destruct (_ || _); [now exists (net s)|].
    destruct (0 <=? _); [now exists (net s)|].
    unfold upgrade. destruct (relTime dep newV (net s)) as [n1 r].
    simpl in Hr. subst r. now exists n1.
Qed.

(** ** The claims about the loop body *)

(** C1 (amended). A change that passes canonicalisation, is strictly
    greater than the baseline and resolves to a release time, but whose lag
    is negative or above 365 days, is dropped like every other skip: no
    record is appended to [out], so it is not counted towards
    [maxChanges], the loop goes on, and the baseline keeps the old
    version.  Only the resolver's cache has moved. *)
Theorem implausible_lag_is_skipped c dep oldV newV s n1 rel :
  candidate s dep oldV newV →
  relTime dep newV (net s) = (n1, Some rel) →
  implausible (lagDays (AuthorWhen c) rel) = true →
  depStep relTime c dep newV s = Next (mkState (prev s) (out s) n1 (S (noise s)))
  ∧ prev (final (depStep relTime c dep newV s)) !! dep = Some oldV
  ∧ out (final (depStep relTime c dep newV s)) = out s
  ∧ halted (depStep relTime c dep newV s) = false.
Proof.
  intros Hc Hr Hbad.
  assert (E : depStep relTime c dep newV s
              = Next (mkState (prev s) (out s) n1 (S (noise s)))).
  { rewrite (depStep_candidate c dep oldV) by exact Hc.
    rewrite (upgrade_resolved c dep oldV newV s n1 rel Hr). now rewrite Hbad. }
  rewrite E. simpl. repeat split. apply Hc.
Qed.

(** C2. For a visited commit past the first, a dependency whose
    declared version is turned down (same value as the baseline, a side
    that does not canonicalise, a version that is not strictly greater, or
    a release time that does not resolve) has the same baseline entry
    after the commit as before it, whatever the loop does for the other
    dependencies of the commit: the next commit is compared with that
    same entry. *)
Theorem baseline_kept_on_rejection `{!RangeVisitsAll}
    idx h c curr l1 l2 dep newV s s1 :
  CommitObject h = Some c → snapshot c = Some curr →
  rangeOrder (S idx) curr = l1 ++ (dep, newV) :: l2 →
  rangeCurr relTime c l1 s = Next s1 →
  rejected relTime s1 dep newV →
  prev (final (commitLoop relTime snapshot (S idx) [h] s)) !! dep = prev s !! dep.
Proof.
  intros Hc Hsnap Hord Hrun Hrej.
  rewrite (commitLoop_single idx h c curr s Hc Hsnap).
  assert (Hnd : NoDup ((rangeOrder (S idx) curr).*1)).
  { rewrite (rangeOrder_perm (S idx) curr). apply NoDup_fst_map_to_list. }
  rewrite Hord in Hnd |- *. rewrite fmap_app, fmap_cons in Hnd. simpl in Hnd.
  apply NoDup_app in Hnd as (_ & Hl1 & Hnd). apply NoDup_cons in Hnd as [Hl2 _].
  assert (Hk1 : dep ∉ l1.*1).
  { intros Hin. apply (Hl1 _ Hin). left. }
  rewrite rangeCurr_app, Hrun. simpl.
  destruct (depStep_rejected c dep newV s1 Hrej) as [n1 ->].
  rewrite rangeCurr_prev_other by exact Hl2. simpl.
  pose proof (rangeCurr_prev_other c l1 s dep Hk1) as E.
  rewrite Hrun in E. exact E.
Qed.

(** C3 (amended). An accepted change appends its record to [out]; the
    stopping rule is checked next, and only when it has not been reached
    is the baseline set to the new version.  The change that reaches
    [maxChanges] leaves the loop with the baseline still at the old
    version. *)
Theorem accepted_change_then_budget c dep oldV newV s n1 rel :
  candidate s dep oldV newV →
  relTime dep newV (net s) = (n1, Some rel) →
  implausible (lagDays (AuthorWhen c) rel) = false →
  depStep relTime c dep newV s =
    if budgetReached (out s ++ [sample c dep oldV newV rel])
    then Break (mkState (prev s) (out s ++ [sample c dep oldV newV rel]) n1 (noise s))
    else Next (mkState (<[dep := newV]> (prev s))
                       (out s ++ [sample c dep oldV newV rel]) n1 (noise s)).
Proof.
  intros Hc Hr Hok.
  rewrite (depStep_candidate c dep oldV) by exact Hc.
  rewrite (upgrade_resolved c dep oldV newV s n1 rel Hr). now rewrite Hok.
Qed.



(** C7 (amended). With [maxChanges = N > 0] and fewer than [N] records
    so far, the walk never holds more than [N] records; it is left early
    exactly when the [N]-th record is appended, and then nothing after
    that point is looked at: neither further dependencies of the commit
    nor further commits.  Only appended records count; a change dropped
    for its lag does not. *)
Theorem change_budget_halts idx hashes s :
  0 < maxChanges → Z.of_nat (length (out s)) < maxChanges →
  Z.of_nat (length (out (final (commitLoop relTime snapshot idx hashes s)))) ≤ maxChanges
  ∧ (halted (commitLoop relTime snapshot idx hashes s) = true →
     Z.of_nat (length (out (final (commitLoop relTime snapshot idx hashes s)))) = maxChanges
     ∧ ∀ more, commitLoop relTime snapshot idx (hashes ++ more) s
               = commitLoop relTime snapshot idx hashes s)
  ∧ (∀ c l more s', halted (rangeCurr relTime c l s') = true →
       rangeCurr relTime c (l ++ more) s' = rangeCurr relTime c l s')
  ∧ (Z.of_nat (length (out (final (commitLoop relTime snapshot idx hashes s))))
     = maxChanges →
     halted (commitLoop relTime snapshot idx hashes s) = true).
Proof.
  intros Hpos Hlt.
  pose proof (commitLoop_budget idx hashes s Hpos Hlt) as Hb.
  split; [|split; [|split]]; cycle 3.
  { destruct (commitLoop relTime snapshot idx hashes s); simpl in *;
      [lia | reflexivity]. }
  - destruct (commitLoop relTime snapshot idx hashes s); simpl in *; lia.
  - intros Hh. split.
    + destruct (commitLoop relTime snapshot idx hashes s); simpl in *;
        [discriminate | exact Hb].
    + intros more. rewrite commitLoop_app.
      destruct (commitLoop relTime snapshot idx hashes s); simpl in *;
        [discriminate | reflexivity].
  - intros c l more s' Hh. rewrite rangeCurr_app.
    destruct (rangeCurr relTime c l s'); simpl in *; [discriminate | reflexivity].
Qed.

End EngineFacts.

(** * Properties of the release-time resolvers *)

Section ResolverFacts.
Context `{NET : Net}.



Lemma timeCache_get_hit pkg ver n t :
  lookup2 (data n) pkg ver = Some t → timeCache_get pkg ver n = (n, Some t).
Proof. intros E. unfold timeCache_get. now rewrite E. Qed.

Lemma goRelTime_hit module ver n t :
  lookup2 (data n) module ver = Some t → goRelTime module ver n = (n, Some t).
Proof. intros E. unfold goRelTime. now rewrite E. Qed.

Lemma pyRel_hit pkg ver n t :
  lookup2 (data n) (GoStrings.ToLower pkg) ver = Some t → pyRel pkg ver n = (n, Some t).
Proof. intros E. unfold pyRel. now rewrite E. Qed.

(** A lookup that is not served from the cache sends one request. *)
Lemma timeCache_get_miss pkg ver n :
  lookup2 (data n) pkg ver = None →
  requests (timeCache_get pkg ver n).1 = npmURL pkg :: requests n.
Proof.
  intros E. unfold timeCache_get, get. rewrite E.
  repeat (case_match; simpl; try reflexivity).
Qed.

Lemma goRelTime_miss module ver n :
  lookup2 (data n) module ver = None →
  requests (goRelTime module ver n).1 = goURL module ver :: requests n.
Proof.
  intros E. unfold goRelTime, get. rewrite E.
  repeat (case_match; simpl; try reflexivity).
Qed.

Lemma pyRel_miss pkg ver n :
  lookup2 (data n) (GoStrings.ToLower pkg) ver = None →
  requests (pyRel pkg ver n).1 = pypiURL (GoStrings.ToLower pkg) :: requests n.
Proof.
  intros E. unfold pyRel, get. rewrite E.
  repeat (case_match; simpl; try reflexivity).
Qed.





End ResolverFacts.

(** * Properties of the Python manifest readers *)

Section ManifestFacts.
Import GoStrings Manifest.

Lemma lowerByte_idem c : lowerByte (lowerByte c) = lowerByte c.
Proof. destruct c as [[] [] [] [] [] [] [] []]; reflexivity. Qed.

Lemma lowerByte_not_upper c : isUpper (lowerByte c) = false.
Proof. destruct c as [[] [] [] [] [] [] [] []]; reflexivity. Qed.

Lemma ToLower_lowerCase s : lowerCase (ToLower s).
Proof.
  unfold lowerCase. induction s as [|c s IH]; simpl; [reflexivity|].
  now rewrite lowerByte_idem, IH.
Qed.

Lemma lowerCase_no_upper k : lowerCase k → allBytes (λ c, negb (isUpper c)) k = true.
Proof.
  unfold lowerCase. induction k as [|c k IH]; simpl; [reflexivity|].
  intros [= Hc Hk]. rewrite <- Hc at 1. rewrite lowerByte_not_upper. simpl.
  now apply IH.
Qed.

Lemma keysLower_empty : keysLower ∅.
Proof. intros k v Hk. now rewrite lookup_empty in Hk. Qed.

Lemma keysLower_insert m name v :
  keysLower m → keysLower (<[ToLower name := v]> m).
Proof.
  intros Hm k w. destruct (decide (k = ToLower name)) as [->|Hne].
  - intros _. apply ToLower_lowerCase.
  - rewrite lookup_insert_ne by congruence. apply Hm.
Qed.

Lemma foldl_keeps {A B} (P : A → Prop) (f : A → B → A) (l : list B) (a : A) :
  (∀ a b, P a → P (f a b)) → P a → P (foldl f a l).
Proof.
  intros Hf. revert a. induction l as [|b l IH]; intros a Ha; simpl; [exact Ha|].
  apply IH. now apply Hf.
Qed.

Lemma pyLine_keysLower m line : keysLower m → keysLower (pyLine m line).
Proof.
  intros Hm. unfold pyLine. destruct (_ || _); [exact Hm|].
  destruct (reqRx _) as [[name ver]|]; [|exact Hm].
  now apply keysLower_insert.
Qed.

Lemma pyVersions_keysLower txt : keysLower (pyVersions txt).
Proof.
  unfold pyVersions. apply foldl_keeps.
  - intros m l. apply pyLine_keysLower.
  - apply keysLower_empty.
Qed.

Lemma addDep_keysLower rx dst line : keysLower dst → keysLower (addDep rx dst line).
Proof.
  intros Hm. unfold addDep. destruct (_ || _); [exact Hm|].
  destruct (rx line) as [[mm1 mm2]|]; [|exact Hm].
  now apply keysLower_insert.
Qed.

Lemma cfgLine_keysLower st raw : keysLower st.2 → keysLower (cfgLine st raw).2.
Proof.
  destruct st as [inBlock deps]. simpl. intros Hm. unfold cfgLine.
  destruct (keyRx _) as [m1|].
  - destruct (negb _); simpl; [|exact Hm].
    apply foldl_keeps; [|exact Hm]. intros m l. apply addDep_keysLower.
  - repeat (case_match; simpl; try exact Hm);
      now apply addDep_keysLower.
Qed.

Lemma cfgVersions_keysLower txt : keysLower (cfgVersions txt).
Proof.
  unfold cfgVersions.
  apply (foldl_keeps (λ st : bool * gmap string string, keysLower st.2)).
  - intros st raw. apply cfgLine_keysLower.
  - apply keysLower_empty.
Qed.

(** The copying loop is a union in which the source wins. *)
Lemma copyInto_union src dst : copyInto src dst = src ∪ dst.
Proof.
  unfold copyInto.
  apply (map_fold_weak_ind (λ r m, r = m ∪ dst)).
  - now rewrite (left_id_L ∅ (∪)).
  - intros k v m r _ ->. now rewrite insert_union_l.
Qed.

Lemma keysLower_union m1 m2 : keysLower m1 → keysLower m2 → keysLower (m1 ∪ m2).
Proof.
  intros H1 H2 k v Hk. apply lookup_union_Some_raw in Hk as [Hk | [_ Hk]].
  - now apply (H1 k v).
  - now apply (H2 k v).
Qed.

Lemma mergedPy_keysLower (c : Commit) : keysLower (mergedPy c).
Proof.
  unfold mergedPy.
  destruct (readNonEmpty c "requirements.txt") as [req|];
    destruct (readNonEmpty c "setup.cfg") as [cfg|];
    rewrite ?copyInto_union;
    repeat apply keysLower_union;
    auto using pyVersions_keysLower, cfgVersions_keysLower, keysLower_empty.
Qed.

Lemma reqRx_not_comment l name ver :
  reqRx l = Some (name, ver) → HasPrefix l "#" || String.eqb l "" = false.
Proof.
  destruct l as [|c r]; [discriminate|]. unfold reqRx. cbn [span].
  destruct (isReqName c) eqn:Hc; [|discriminate]. intros _.
  destruct (Ascii.eqb_spec c "#") as [->|Hne]; [discriminate Hc|].
  unfold HasPrefix. cbn [String.prefix].
  destruct (ascii_dec "#" c) as [<-|_]; [now contradiction Hne | reflexivity].
Qed.

Lemma pyLine_stores m line name ver :
  reqRx (TrimSpace line) = Some (name, ver) →
  pyLine m line = <[ToLower name := ver]> m.
Proof.
  intros Hrx. unfold pyLine. now rewrite (reqRx_not_comment _ _ _ Hrx), Hrx.
Qed.

Lemma pyLine_keeps m line k : is_Some (m !! k) → is_Some (pyLine m line !! k).
Proof.
  intros Hk. unfold pyLine. destruct (_ || _); [exact Hk|].
  destruct (reqRx _) as [[name ver]|]; [|exact Hk].
  destruct (decide (k = ToLower name)) as [->|Hne].
  - rewrite lookup_insert_eq. now eexists.
  - now rewrite lookup_insert_ne by congruence.
Qed.

Lemma foldl_pyLine_has ls : ∀ m line name ver,
  line ∈ ls → reqRx (TrimSpace line) = Some (name, ver) →
  is_Some (foldl pyLine m ls !! ToLower name).
Proof.
  induction ls as [|l ls IH]; intros m line name ver Hin Hrx.
  - now apply elem_of_nil in Hin.
  - simpl. apply elem_of_cons in Hin as [<- | Hin].
    + apply (foldl_keeps (λ m', is_Some (m' !! ToLower name))).
      * intros a b. apply pyLine_keeps.
      * rewrite (pyLine_stores m line name ver Hrx), lookup_insert_eq. now eexists.
    + now apply (IH _ line name ver).
Qed.

Lemma depLineRx_not_comment line mm1 mm2 :
  depLineRx line = Some (mm1, mm2) →
  String.eqb line "" || HasPrefix line "#" = false.
Proof.
  destruct line as [|c r]; [discriminate|]. unfold depLineRx.
  destruct (Ascii.eqb_spec c "#") as [->|Hne]; [discriminate|]. intros _.
  unfold HasPrefix. cbn [String.eqb String.prefix orb].
  destruct (ascii_dec "#" c) as [<-|_]; [now contradiction Hne | reflexivity].
Qed.

Lemma addDep_stores dst line mm1 mm2 :
  depLineRx line = Some (mm1, mm2) →
  addDep depLineRx dst line = <[ToLower mm1 := TrimLeft mm2 "=<>!~ "]> dst.
Proof.
  intros Hrx. unfold addDep. now rewrite (depLineRx_not_comment _ _ _ Hrx), Hrx.
Qed.

Lemma mergedPy_both (c : Commit) req cfg :
  readNonEmpty c "requirements.txt" = Some req →
  readNonEmpty c "setup.cfg" = Some cfg →
  mergedPy c = cfgVersions cfg ∪ pyVersions req.
Proof.
  intros Hr Hc. unfold mergedPy. rewrite Hr, Hc.
  rewrite !copyInto_union. now rewrite (right_id_L ∅ (∪)).
Qed.

(** C10. Every name that [pyVersions] or [addDep] parses is stored
    under its lower-cased form: a pin of requirements.txt under
    [ToLower] of its name, whatever lines follow, and a requirement of
    setup.cfg under [ToLower] of its name (for a name of ASCII bytes, on
    which [ToLower] is [strings.ToLower]; the names of requirements.txt
    are such by [reqRx]).  So every key of the snapshot that [analyzePy]
    builds is lower-case (and holds no byte A to Z), and names meet
    without regard to case: the entries of setup.cfg are written over
    those of requirements.txt under the lower-cased name, so that what
    setup.cfg holds under the lower-cased name of a pin is what the
    snapshot holds for it. *)
Theorem python_snapshot_keys_lower_case :
  (∀ txt, keysLower (pyVersions txt))
  ∧ (∀ rx dst line, keysLower dst → keysLower (addDep rx dst line))
  ∧ (∀ (c : Commit) k v, mergedPy c !! k = Some v →
       ToLower k = k ∧ allBytes (λ b, negb (isUpper b)) k = true)
  ∧ (∀ (c : Commit) req cfg,
       readNonEmpty c "requirements.txt" = Some req →
       readNonEmpty c "setup.cfg" = Some cfg →
       mergedPy c = cfgVersions cfg ∪ pyVersions req)
  ∧ (∀ m line name ver,
       reqRx (TrimSpace line) = Some (name, ver) →
       pyLine m line = <[ToLower name := ver]> m)
  ∧ (∀ txt line name ver,
       line ∈ ScanLines txt → reqRx (TrimSpace line) = Some (name, ver) →
       is_Some (pyVersions txt !! ToLower name))
  ∧ (∀ dst line mm1 mm2,
       depLineRx line = Some (mm1, mm2) → allBytes isASCII mm1 = true →
       addDep depLineRx dst line = <[ToLower mm1 := TrimLeft mm2 "=<>!~ "]> dst)
  ∧ (∀ (c : Commit) req cfg line name ver,
       readNonEmpty c "requirements.txt" = Some req →
       readNonEmpty c "setup.cfg" = Some cfg →
       line ∈ ScanLines req → reqRx (TrimSpace line) = Some (name, ver) →
       is_Some (mergedPy c !! ToLower name)
       ∧ ∀ v, cfgVersions cfg !! ToLower name = Some v →
           mergedPy c !! ToLower name = Some v).
Proof.
  repeat apply conj.
  - apply pyVersions_keysLower.
  - apply addDep_keysLower.
  - intros c k v Hk. pose proof (mergedPy_keysLower c k v Hk) as Hl.
    split; [exact Hl | now apply lowerCase_no_upper].
  - apply mergedPy_both.
  - apply pyLine_stores.
  - intros txt line name ver. unfold pyVersions. apply foldl_pyLine_has.
  - intros dst line mm1 mm2 Hrx _. now apply addDep_stores.
  - intros c req cfg line name ver Hr Hc Hin Hrx.
    rewrite (mergedPy_both c req cfg Hr Hc).
    pose proof (foldl_pyLine_has _ ∅ line name ver Hin Hrx) as Hpy.
    fold (pyVersions req) in Hpy. split.
    + destruct (cfgVersions cfg !! ToLower name) as [v|] eqn:Hv.
      * exists v. now apply lookup_union_Some_l.
      * now rewrite lookup_union_r.
    + intros v Hv. now apply lookup_union_Some_l.
Qed.

End ManifestFacts.

(** * Properties of the statistics *)

Section StatsFacts.

(** ** The order on binary64 values *)

Lemma SFcompare_Lt_swap a b : SFcompare a b = Some Lt → SFcompare b a = Some Gt.
Proof.
  destruct a as [sa|sa| |sa ma ea], b as [sb|sb| |sb mb eb]; simpl;
    try discriminate; try (destruct sa; discriminate || reflexivity);
    try (destruct sb; discriminate || reflexivity);
    try (destruct sa, sb; discriminate || reflexivity).
  pose proof (Pos.compare_cont_antisym ma mb Eq) as Hm. simpl in Hm.
  destruct sa, sb; try discriminate; try reflexivity;
    rewrite (Z.compare_antisym ea eb), <- Hm;
    destruct (ea ?= eb); simpl; try discriminate; try reflexivity;
    destruct (Pos.compare_cont Eq ma mb); simpl; discriminate || reflexivity.
Qed.

Lemma SFcompare_refl a : a ≠ S754_nan → SFcompare a a = Some Eq.
Proof.
  destruct a as [s|s| |s m e]; simpl; intros Hn; try reflexivity.
  - now destruct s.
  - congruence.
  - rewrite Z.compare_refl, Pos.compare_cont_refl. now destruct s.
Qed.

Lemma SFcompare_nan_l b : SFcompare S754_nan b = None.
Proof. now destruct b. Qed.

Lemma SFcompare_nan_r a : SFcompare a S754_nan = None.
Proof. now destruct a as [s|s| |s m e]. Qed.

Lemma isNaN_spec x : isNaN x = true → Prim2SF x = S754_nan.
Proof.
  unfold isNaN. rewrite FloatAxioms.eqb_spec. unfold SFeqb. intros Hx.
  destruct (Prim2SF x) as [s|s| |s m e] eqn:E; [| |reflexivity|];
    rewrite SFcompare_refl in Hx by discriminate; discriminate.
Qed.

Lemma ltb_asym x y : (x <? y)%float = true → (y <? x)%float = false.
Proof.
  rewrite !FloatAxioms.ltb_spec. unfold SFltb.
  destruct (SFcompare (Prim2SF x) (Prim2SF y)) as [[]|] eqn:E; try discriminate.
  now rewrite (SFcompare_Lt_swap _ _ E).
Qed.

Lemma ltb_not_NaN x y : (x <? y)%float = true → isNaN x = false ∧ isNaN y = false.
Proof.
  intros Hlt. split.
  - destruct (isNaN x) eqn:E; [|reflexivity]. apply isNaN_spec in E.
    rewrite FloatAxioms.ltb_spec in Hlt. unfold SFltb in Hlt.
    rewrite E, SFcompare_nan_l in Hlt. discriminate.
  - destruct (isNaN y) eqn:E; [|reflexivity]. apply isNaN_spec in E.
    rewrite FloatAxioms.ltb_spec in Hlt. unfold SFltb in Hlt.
    rewrite E, SFcompare_nan_r in Hlt. discriminate.
Qed.

Lemma ltb_NaN_r x y : isNaN x = true → (y <? x)%float = false.
Proof.
  intros E. apply isNaN_spec in E. rewrite FloatAxioms.ltb_spec. unfold SFltb.
  now rewrite E, SFcompare_nan_r.
Qed.

Lemma less_asym x y : less x y = true → less y x = false.
Proof.
  unfold less. intros Hl. apply orb_true_iff in Hl as [Hlt | Hn].
  - destruct (ltb_not_NaN _ _ Hlt) as [Hx Hy].
    now rewrite (ltb_asym _ _ Hlt), Hy.
  - apply andb_prop in Hn as [Hx Hy]. apply negb_true_iff in Hy.
    now rewrite (ltb_NaN_r _ _ Hx), Hy.
Qed.

(** ** The sort *)

Lemma insertSorted_perm x l : insertSorted x l ≡ₚ x :: l.
Proof.
  induction l as [|y r IH]; simpl; [reflexivity|].
  destruct (less x y); [reflexivity|].
  rewrite IH. apply Permutation_swap.
Qed.

Lemma Float64s_perm xs : Float64s xs ≡ₚ xs.
Proof.
  induction xs as [|x xs IH]; simpl; [reflexivity|].
  rewrite insertSorted_perm. now rewrite IH.
Qed.

Lemma Float64s_length xs : length (Float64s xs) = length xs.
Proof. now rewrite (Float64s_perm xs). Qed.

Lemma insertSorted_ascending x l : ascending l → ascending (insertSorted x l).
Proof.
  unfold ascending. induction 1 as [|y r Hr IH Hhd]; simpl.
  - repeat constructor.
  - destruct (less x y) eqn:E.
    + constructor; [now constructor|]. constructor. now apply less_asym.
    + constructor; [exact IH|].
      destruct Hhd as [|z r' Hz]; simpl.
      * now constructor.
      * destruct (less x z); now constructor.
Qed.

Lemma Float64s_ascending xs : ascending (Float64s xs).
Proof.
  induction xs as [|x xs IH]; simpl; [constructor|].
  now apply insertSorted_ascending.
Qed.

(** ** Mean and median *)

Lemma median_odd xs l1 x l2 :
  Float64s xs = l1 ++ x :: l2 → length l1 = length l2 → median xs = x.
Proof.
  intros Hs Hlen. unfold median.
  pose proof (Float64s_length xs) as Hn. rewrite Hs in Hn.
  rewrite length_app in Hn. simpl in Hn.
  destruct (Nat.eqb_spec (length xs) 0) as [E|_]; [lia|].
  rewrite Hs, length_app. cbn [length].
  replace ((length l1 + S (length l2)) mod 2)%nat with 1%nat
    by (rewrite Hlen; apply (Nat.mod_unique _ 2 (length l2)); lia).
  replace ((length l1 + S (length l2)) / 2)%nat with (length l1)
    by (rewrite Hlen; apply (Nat.div_unique _ 2 (length l2) 1); lia).
  simpl. now rewrite list_lookup_middle.
Qed.

Lemma median_even xs l1 x y l2 :
  Float64s xs = l1 ++ x :: y :: l2 → length l1 = length l2 →
  median xs = ((x + y) / 2)%float.
Proof.
  intros Hs Hlen. unfold median.
  pose proof (Float64s_length xs) as Hn. rewrite Hs in Hn.
  rewrite length_app in Hn. simpl in Hn.
  destruct (Nat.eqb_spec (length xs) 0) as [E|_]; [lia|].
  rewrite Hs, length_app. cbn [length].
  replace ((length l1 + S (S (length l2))) mod 2)%nat with 0%nat
    by (rewrite Hlen; apply (Nat.mod_unique _ 2 (S (length l2))); lia).
  replace ((length l1 + S (S (length l2))) / 2)%nat with (S (length l1))
    by (rewrite Hlen; apply (Nat.div_unique _ 2 (S (length l2)) 0); lia).
  simpl. rewrite Nat.sub_0_r.
  rewrite (list_lookup_middle l1 (y :: l2) x (length l1)) by reflexivity.
  replace (l1 ++ x :: y :: l2) with ((l1 ++ [x]) ++ y :: l2)
    by now rewrite <- app_assoc.
  rewrite (list_lookup_middle (l1 ++ [x]) l2 y (S (length l1)))
    by (rewrite length_app; simpl; lia).
  reflexivity.
Qed.

(** A non-empty list has a middle element or a middle pair. *)
Lemma middle_exists {A} (s : list A) :
  s ≠ [] →
  (∃ l1 x l2, s = l1 ++ x :: l2 ∧ length l1 = length l2)
  ∨ (∃ l1 x y l2, s = l1 ++ x :: y :: l2 ∧ length l1 = length l2).
Proof.
  intros Hne.
  destruct (Nat.Even_or_Odd (length s)) as [[k Hk]|[k Hk]].
  - right. destruct k as [|k]; [destruct s; simpl in *; [congruence|lia]|].
    destruct (lookup_lt_is_Some_2 s k) as [x Hx]; [lia|].
    destruct (lookup_lt_is_Some_2 s (S k)) as [y Hy]; [lia|].
    exists (take k s), x, y, (drop (S (S k)) s). split.
    + rewrite <- (take_drop_middle s k x Hx) at 1. f_equal. f_equal.
      rewrite <- (take_drop_middle s (S k) y Hy) at 1.
      rewrite drop_app_length'; [reflexivity|].
      rewrite length_take. lia.
    + rewrite length_take, length_drop. lia.
  - left. destruct (lookup_lt_is_Some_2 s k) as [x Hx]; [lia|].
    exists (take k s), x, (drop (S k) s). split.
    + now rewrite take_drop_middle.
    + rewrite length_take, length_drop. lia.
Qed.

(** C9. For a non-empty list, [mean] is the sum of the values (added
    from the left, starting at 0) divided by their number, and [median]
    reads the ascending arrangement of the values: the element with as
    many values before it as after it, or the half-sum of the two
    elements around the middle; one of the two always applies.  The two
    sample lists of the specification give 3 for both. *)
Theorem mean_and_median xs :
  xs ≠ [] →
  mean xs = (foldl (λ sum v, sum + v) 0 xs / float64 (Z.of_nat (length xs)))%float
  ∧ Float64s xs ≡ₚ xs ∧ ascending (Float64s xs)
  ∧ (∀ l1 x l2, Float64s xs = l1 ++ x :: l2 → length l1 = length l2 →
       median xs = x)
  ∧ (∀ l1 x y l2, Float64s xs = l1 ++ x :: y :: l2 → length l1 = length l2 →
       median xs = ((x + y) / 2)%float)
  ∧ ((∃ l1 x l2, Float64s xs = l1 ++ x :: l2 ∧ length l1 = length l2)
     ∨ (∃ l1 x y l2, Float64s xs = l1 ++ x :: y :: l2 ∧ length l1 = length l2))
  ∧ mean [1; 3; 5]%float = 3%float ∧ median [1; 3; 5]%float = 3%float
  ∧ mean [1; 2; 4; 5]%float = 3%float ∧ median [1; 2; 4; 5]%float = 3%float.
Proof.
  intros Hne. repeat split.
  - unfold mean. destruct xs; [congruence|reflexivity].
  - apply Float64s_perm.
  - apply Float64s_ascending.
  - apply median_odd.
  - apply median_even.
  - apply middle_exists. intros E.
    pose proof (Float64s_length xs) as Hl. rewrite E in Hl.
    destruct xs; [congruence|discriminate].
Qed.

End StatsFacts.

(** * The executable [semver] instance is an order *)

Section SemverFacts.
Import GoStrings semver.
















End SemverFacts.


(** * The analysers on concrete histories *)

Lemma tableRuntime_visits_all tbl : @RangeVisitsAll (tableRuntime tbl).
Proof. intros i m. reflexivity. Qed.

(** The specification's first scenario: one accepted change with a lag of
    ten days; the later downgrade gives nothing. *)
Example scenario_upgrade_then_downgrade :
  @analyzePy xmod_semver repoScenario1 rt0 noCap pypi21 net0
  = Some [mkDelay "dep" "1.0.0" "1.1.0" 10 "b2b2b2b" (jan 11)].
Proof. vm_compute. reflexivity. Qed.

(** The second scenario: the lookup of 1.1.0 fails, and 1.2.0 is later
    compared with the baseline 1.0.0. *)
Example scenario_stale_baseline :
  @analyzePy xmod_semver repoScenario2 rt0 noCap pypiGap net0
  = Some [mkDelay "dep" "1.0.0" "1.2.0" 4 "d4d4d4d" (jan 25)].
Proof. vm_compute. reflexivity. Qed.

(** C1, as stated, fails: late 1.1.0 is taken five days before its
    release is recorded.  Every guard before the lag is passed, yet the
    baseline is not moved to 1.1.0, and with a budget of one change the
    walk is not stopped: the change has not been counted. *)
Lemma implausible_lag_counterexample :
  @candidate xmod_semver (pinned "late" "1.0.0") "late" "1.0.0" "1.1.0"
  ∧ (@pyRel pypi21 "late" "1.1.0" net0).2 = Some (jan 16)
  ∧ lagDays (jan 11) (jan 16) = (-5)%float
  ∧ @maxChanges oneChange = 1
  ∧ match @runPy xmod_semver repoEarly rt0 oneChange pypi21 net0 with
    | Some r => halted r = false ∧ out (final r) = []
                ∧ prev (final r) !! "late" ≠ Some "1.1.0"
    | None => False
    end.
Proof.
  vm_compute. repeat split; try reflexivity; intros E; discriminate E.
Qed.

Lemma implausible_lag_is_skipped_witness :
  @depStep xmod_semver oneChange (@pyRel pypi21)
     (commitOf (pyCommit hB (jan 11) "late==1.1.0")) "late" "1.1.0" (pinned "late" "1.0.0")
  = Next (mkState (<["late" := "1.0.0"]> ∅) []
            (@pyRel pypi21 "late" "1.1.0" net0).1 1).
Proof.
  refine (proj1 (@implausible_lag_is_skipped xmod_semver oneChange (@pyRel pypi21)
            (commitOf (pyCommit hB (jan 11) "late==1.1.0")) "late" "1.0.0" "1.1.0"
            (pinned "late" "1.0.0") (@pyRel pypi21 "late" "1.1.0" net0).1 (jan 16) _ _ _)).
  - vm_compute. repeat split; try reflexivity; intros E; discriminate E.
  - vm_compute. reflexivity.
  - vm_compute. reflexivity.
Defined.

Lemma baseline_kept_on_rejection_witness :
  prev (final (@commitLoop xmod_semver repoScenario2 rt0 noCap (@pyRel pypiGap)
                 (@snapshotPy) 1 [hB] (pinned "dep" "1.0.0"))) !! "dep"
  = Some "1.0.0".
Proof.
  refine (@baseline_kept_on_rejection xmod_semver repoScenario2 rt0 noCap
            (@pyRel pypiGap) (@snapshotPy) (tableRuntime_visits_all []) 0 hB
            (commitOf (pyCommit hB (jan 11) "dep==1.1.0"))
            (<["dep" := "1.1.0"]> ∅) [] [] "dep" "1.1.0"
            (pinned "dep" "1.0.0") (pinned "dep" "1.0.0") _ _ _ _ _).
  - vm_compute. reflexivity.
  - vm_compute. reflexivity.
  - vm_compute. reflexivity.
  - reflexivity.
  - apply (@rejected_unresolved xmod_semver (@pyRel pypiGap) _ _ _ "1.0.0");
      vm_compute; reflexivity.
Defined.

(** C3, as stated, fails: with a budget of one change the first accepted
    change (dep 1.0.0 to 1.1.0) ends the walk, and the baseline still holds
    1.0.0. *)
Lemma accepted_change_counterexample :
  match @runPy xmod_semver repoScenario1 rt0 oneChange pypi21 net0 with
  | Some r => halted r = true
              ∧ NewVer <$> out (final r) = ["1.1.0"]
              ∧ prev (final r) !! "dep" ≠ Some "1.1.0"
  | None => False
  end.
Proof.
  vm_compute. repeat split; try reflexivity; intros E; discriminate E.
Qed.

Lemma accepted_change_then_budget_witness :
  @depStep xmod_semver oneChange (@pyRel pypi21)
     (commitOf (pyCommit hB (jan 11) "dep==1.1.0")) "dep" "1.1.0" (pinned "dep" "1.0.0")
  = Break (mkState (<["dep" := "1.0.0"]> ∅)
             [mkDelay "dep" "1.0.0" "1.1.0" 10 "b2b2b2b" (jan 11)]
             (@pyRel pypi21 "dep" "1.1.0" net0).1 0).
Proof.
  refine (@accepted_change_then_budget xmod_semver oneChange (@pyRel pypi21)
            (commitOf (pyCommit hB (jan 11) "dep==1.1.0")) "dep" "1.0.0" "1.1.0"
            (pinned "dep" "1.0.0") (@pyRel pypi21 "dep" "1.1.0" net0).1 (jan 1) _ _ _).
  - vm_compute. repeat split; try reflexivity; intros E; discriminate E.
  - vm_compute. reflexivity.
  - vm_compute. reflexivity.
Defined.

(** A dependency that appears after the first commit: lib is declared
    for the first time at 2.1.0, a version that canonicalises and
    resolves.  Read under steps a to e its old value is empty, and the
    loop body leaves the state as it is (no request, no record, no
    entry); so does the whole walk of a history in which lib appears
    after the first commit.  With an entry 2.0.0 the same declaration is
    accepted. *)
Example first_seen_scenario :
  prev (pinned "dep" "1.0.0") !! "lib" = None
  ∧ @canon xmod_semver "" = ""
  ∧ @depStep xmod_semver noCap (@pyRel pypi21)
      (commitOf (pyCommit hC (jan 12) "lib==2.1.0")) "lib" "2.1.0" (pinned "dep" "1.0.0")
    = Next (pinned "dep" "1.0.0")
  ∧ out (final (@depStep xmod_semver noCap (@pyRel pypi21)
      (commitOf (pyCommit hC (jan 12) "lib==2.1.0")) "lib" "2.1.0" (pinned "lib" "2.0.0")))
    = [mkDelay "lib" "2.0.0" "2.1.0" 6 "c3c3c3c" (jan 12)]
  ∧ match @runPy xmod_semver repoNewDep rt0 noCap pypi21 net0 with
    | Some r => out (final r) = [] ∧ requests (net (final r)) = []
                ∧ prev (final r) !! "lib" = None
    | None => False
    end.
Proof. vm_compute. repeat split; reflexivity. Qed.


(** C5: the first commit of the walk has no manifest.  The baseline is
    never set and the walk produces nothing, although the same history
    without that commit gives one record. *)
Theorem bare_first_commit_disables_the_walk :
  @runPy xmod_semver repoBareFirst rt0 noCap pypi21 net0
  = Some (Next (mkState ∅ [] net0 0))
  ∧ @analyzePy xmod_semver repoPlain rt0 noCap pypi21 net0
    = Some [mkDelay "dep" "1.0.0" "1.1.0" 10 "b2b2b2b" (jan 11)].
Proof. vm_compute. split; reflexivity. Qed.



(** C7, as stated, fails: with a budget of one change, the walk first
    drops late 1.1.0 for its negative lag and then accepts lib 2.1.0.
    Records and dropped changes together number two. *)
Lemma change_budget_counterexample :
  @maxChanges oneChange = 1
  ∧ match @runPy xmod_semver repoNoiseThenChange rt0 oneChange pypi21 net0 with
    | Some r => halted r = true
                ∧ length (out (final r)) = 1%nat ∧ noise (final r) = 1%nat
                ∧ Z.of_nat (length (out (final r)) + noise (final r)) ≠ 1
    | None => False
    end.
Proof.
  vm_compute. repeat split; try reflexivity; intros E; discriminate E.
Qed.

Lemma change_budget_halts_witness :
  Z.of_nat (length (out (final
     (@commitLoop xmod_semver repoNoiseThenChange rt0 oneChange (@pyRel pypi21)
        (@snapshotPy) 0 [hA; hB; hC] (mkState ∅ [] net0 0))))) ≤ 1.
Proof.
  refine (proj1 (@change_budget_halts xmod_semver repoNoiseThenChange rt0 oneChange
            (@pyRel pypi21) (@snapshotPy) 0 [hA; hB; hC] (mkState ∅ [] net0 0) _ _)).
  - vm_compute. reflexivity.
  - vm_compute. reflexivity.
Defined.



(** After one fetch the npm cache also answers for the other version. *)
Example npm_other_version_is_cached :
  @timeCache_get npm21 "left-pad" "1.1.0" (@timeCache_get npm21 "left-pad" "1.0.0" net0).1
  = ((@timeCache_get npm21 "left-pad" "1.0.0" net0).1, Some (jan 6)).
Proof. vm_compute. reflexivity. Qed.

Lemma mean_and_median_witness :
  median [2; 9; 4]%float = 4%float.
Proof.
  refine (proj1 (proj2 (proj2 (proj2
            (mean_and_median [2; 9; 4]%float _)))) [2]%float 4%float [9]%float _ _).
  - intros E; discriminate E.
  - vm_compute. reflexivity.
  - reflexivity.
Defined.

(** Flask in requirements.txt and flask in setup.cfg meet under one key,
    and the snapshot holds what setup.cfg declares. *)
Lemma python_snapshot_keys_lower_case_witness :
  mergedPy bothManifests = <["flask" := "2.0"]> (<["six" := "1.15.0"]> ∅)
  ∧ mergedPy bothManifests !! GoStrings.ToLower "Flask" = Some "2.0".
Proof.
  split.
  - rewrite (proj1 (proj2 (proj2 (proj2 python_snapshot_keys_lower_case))) bothManifests
               ("Flask==1.0.2" +:+ String "010" "six==1.15.0")
               ("[options]" +:+ String "010" "install_requires = flask>=2.0")
               eq_refl eq_refl).
    vm_compute. reflexivity.
  - pose proof (proj2 (proj2 (proj2 (proj2 (proj2 (proj2 (proj2
                  python_snapshot_keys_lower_case))))))) as Hmeet.
    refine (proj2 (Hmeet bothManifests
              ("Flask==1.0.2" +:+ String "010" "six==1.15.0")
              ("[options]" +:+ String "010" "install_requires = flask>=2.0")
              "Flask==1.0.2" "Flask" "1.0.2" eq_refl eq_refl _ _) "2.0" _).
    + assert (E : Manifest.ScanLines ("Flask==1.0.2" +:+ String "010" "six==1.15.0")
                  = ["Flask==1.0.2"; "six==1.15.0"]) by (vm_compute; reflexivity).
      rewrite E. now left.
    + vm_compute. reflexivity.
    + vm_compute. reflexivity.
Defined.

(** Names in capitals on both sides meet as well, and a pin alone is
    kept under its lower-cased name. *)
Example mixed_case_names_meet :
  Manifest.addDep Manifest.depLineRx (Manifest.pyVersions "Flask==1.0.2") "FLASK>=2.0"
  = <["flask" := "2.0"]> ∅
  ∧ Manifest.pyVersions ("Django==3.2" +:+ String "010" "django==4.0")
    = <["django" := "4.0"]> ∅.
Proof. vm_compute. split; reflexivity. Qed.

(** * Further properties of the manifest readers *)

Section ManifestInvariants.
Import GoStrings Manifest.

Lemma span_allBytes f s : allBytes f (span f s).1 = true.
Proof.
  induction s as [|c r IH]; simpl; [reflexivity|].
  destruct (f c) eqn:E; [|reflexivity].
  destruct (span f r) as [a b]. simpl in *. now rewrite E.
Qed.

Lemma span_app f s : s = (span f s).1 +:+ (span f s).2.
Proof.
  induction s as [|c r IH]; simpl; [reflexivity|].
  destruct (f c); [|reflexivity].
  destruct (span f r) as [a b]. simpl in *.
  change (String c r = String c (a +:+ b)). now f_equal.
Qed.

(** After the span comes the end or a byte outside the class. *)
Lemma span_rest f s :
  match (span f s).2 with
  | EmptyString => True
  | String c _ => f c = false
  end.
Proof.
  induction s as [|c r IH]; simpl; [exact I|].
  destruct (f c) eqn:E; [|exact E].
  now destruct (span f r) as [a b].
Qed.

Lemma TrimLeft_noLeading s cutset : noLeading cutset (TrimLeft s cutset).
Proof.
  unfold TrimLeft. induction s as [|c r IH]; simpl; [exact I|].
  destruct (inSet c cutset) eqn:E; [exact IH | exact E].
Qed.

Lemma ToLower_nonempty s : s ≠ "" → ToLower s ≠ "".
Proof. destruct s; [congruence | discriminate]. Qed.

Lemma lowerByte_isReqName c : isReqName c = true → isReqName (lowerByte c) = true.
Proof. destruct c as [[] [] [] [] [] [] [] []]; intros E; try reflexivity; exact E. Qed.

Lemma ToLower_isReqName s :
  allBytes isReqName s = true → allBytes isReqName (ToLower s) = true.
Proof.
  induction s as [|c r IH]; simpl; [reflexivity|].
  intros E. apply andb_prop in E as [Ec Er].
  now rewrite (lowerByte_isReqName c Ec), IH.
Qed.

Lemma stripPrefix_Some p s r : stripPrefix p s = Some r → s = p +:+ r.
Proof.
  revert s. induction p as [|a p IH]; intros s; simpl.
  - now intros [= ->].
  - destruct s as [|b s]; [discriminate|].
    destruct (Ascii.eqb_spec a b) as [->|]; [|discriminate].
    intros E. apply IH in E. subst s. reflexivity.
Qed.

Lemma reqRx_Some l name ver :
  reqRx l = Some (name, ver) →
  name ≠ "" ∧ allBytes isReqName name = true
  ∧ ver ≠ "" ∧ allBytes isReqVer ver = true
  ∧ l = name +:+ "==" +:+ ver.
Proof.
  unfold reqRx. pose proof (span_allBytes isReqName l) as Ha.
  pose proof (span_app isReqName l) as Happ.
  destruct (span isReqName l) as [nm rest]. simpl in Ha, Happ. cbv beta iota.
  destruct (String.eqb_spec nm "") as [|Hn]; [discriminate|].
  destruct (stripPrefix "==" rest) as [v|] eqn:Es; [|discriminate].
  apply stripPrefix_Some in Es. subst rest.
  destruct (String.eqb_spec v "") as [|Hv]; [discriminate|]. simpl.
  destruct (allBytes isReqVer v) eqn:Hb; [|discriminate].
  intros [= <- <-]. repeat split; assumption.
Qed.

(** X13. [pyVersions] records exact pins only: every entry has a
    non-empty lower-case name made of letters, digits, underscore, dot and
    hyphen, and a non-empty version made of letters, digits, dot, plus and
    hyphen, so no range operator, space or comment ever gets in. *)
Theorem pyVersions_records_pins_only txt k v :
  pyVersions txt !! k = Some v → pinned_entry k v.
Proof.
  revert k v. unfold pyVersions.
  apply (foldl_keeps (λ m : gmap string string,
           ∀ k v, m !! k = Some v → pinned_entry k v)).
  - intros m line Hm k v. unfold pyLine. destruct (_ || _); [apply Hm|].
    destruct (reqRx _) as [[name ver]|] eqn:E; [|apply Hm].
    apply reqRx_Some in E as (Hn & Hcn & Hv & Hcv & _).
    destruct (decide (k = ToLower name)) as [->|Hk].
    + rewrite lookup_insert_eq. intros [= <-].
      repeat split; auto using ToLower_nonempty, ToLower_isReqName.
      apply ToLower_lowerCase.
    + rewrite lookup_insert_ne by congruence. apply Hm.
  - intros k v Hk. now rewrite lookup_empty in Hk.
Qed.

Lemma depLineRx_name line mm1 mm2 : depLineRx line = Some (mm1, mm2) → mm1 ≠ "".
Proof.
  unfold depLineRx. destruct line as [|c0 r]; [discriminate|].
  destruct (_ || _); [discriminate|].
  destruct (span _ r) as [run r1].
  repeat (case_match; try discriminate); intros [= <- _]; discriminate.
Qed.

Lemma addDep_cfg_entry dst line :
  (∀ k v, dst !! k = Some v → cfg_entry k v) →
  ∀ k v, addDep depLineRx dst line !! k = Some v → cfg_entry k v.
Proof.
  intros Hm k v. unfold addDep. destruct (_ || _); [apply Hm|].
  destruct (depLineRx line) as [[mm1 mm2]|] eqn:E; [|apply Hm].
  destruct (decide (k = ToLower mm1)) as [->|Hk].
  - rewrite lookup_insert_eq. intros [= <-]. split.
    + apply ToLower_nonempty. eapply depLineRx_name, E.
    + apply TrimLeft_noLeading.
  - rewrite lookup_insert_ne by congruence. apply Hm.
Qed.

(** X14. [cfgVersions] stores a requirement under a non-empty name with
    its constraint operators cut off: no stored version begins with one of
    [= < > ! ~] or a space. *)
Theorem cfgVersions_strips_operators txt k v :
  cfgVersions txt !! k = Some v → k ≠ "" ∧ noLeading "=<>!~ " v.
Proof.
  revert k v. unfold cfgVersions.
  apply (foldl_keeps (λ st : bool * gmap string string,
           ∀ k v, st.2 !! k = Some v → cfg_entry k v)).
  - intros [inBlock deps] raw Hm. simpl in Hm. unfold cfgLine.
    destruct (keyRx _) as [m1|].
    + destruct (negb _); simpl; [|exact Hm].
      apply (foldl_keeps (λ m : gmap string string,
               ∀ k v, m !! k = Some v → cfg_entry k v)); [|exact Hm].
      intros m l. apply addDep_cfg_entry.
    + repeat (case_match; simpl; try exact Hm); now apply addDep_cfg_entry.
  - intros k v Hk. simpl in Hk. now rewrite lookup_empty in Hk.
Qed.

Lemma npmVersions_noLeading `{RT : Runtime} js k v :
  npmVersions js !! k = Some v → noLeading "^~>=< " v.
Proof.
  unfold npmVersions. rewrite lookup_fmap. intros Hv.
  destruct (json_dependencies js !! k) as [raw|]; [|discriminate].
  simpl in Hv. injection Hv as <-. apply TrimLeft_noLeading.
Qed.


End ManifestInvariants.

(** * [goVersions] *)

Section GoModFacts.
Import GoStrings Manifest.

Lemma sapp_nil_r s : s +:+ "" = s.
Proof. induction s as [|c s IH]; [reflexivity|]. change (String c (s +:+ "") = String c s). now f_equal. Qed.

Lemma sapp_assoc a b c : (a +:+ b) +:+ c = a +:+ (b +:+ c).
Proof.
  induction a as [|x a IH]; [reflexivity|].
  change (String x ((a +:+ b) +:+ c) = String x (a +:+ (b +:+ c))). now f_equal.
Qed.

Lemma rev_app_spec s acc : String.rev_app s acc = String.rev s +:+ acc.
Proof.
  unfold String.rev. revert acc. induction s as [|c s IH]; intros acc; [reflexivity|].
  simpl. rewrite (IH (String c acc)), (IH (String c "")), sapp_assoc. reflexivity.
Qed.

Lemma span_nonSpace_cons c r :
  span nonSpace (String c r)
  = if Ascii.is_space c then (EmptyString, String c r)
    else (String c (span nonSpace r).1, (span nonSpace r).2).
Proof.
  simpl. unfold nonSpace at 1, isSpace. destruct (Ascii.is_space c); simpl; [reflexivity|].
  now destruct (span nonSpace r).
Qed.

Lemma words_go_Some acc s :
  String.words_go (Some acc) s
  = (String.rev acc +:+ (span nonSpace s).1)
      :: String.words_go None (span nonSpace s).2.
Proof.
  revert acc. induction s as [|c r IH]; intros acc.
  - simpl. now rewrite sapp_nil_r.
  - rewrite span_nonSpace_cons. cbn [String.words_go].
    destruct (Ascii.is_space c) eqn:E; cbn [fst snd].
    + rewrite sapp_nil_r. cbn [String.words_go]. rewrite E. reflexivity.
    + cbn [from_option]. rewrite IH. f_equal. unfold String.rev at 1. cbn [String.rev_app].
      rewrite rev_app_spec, sapp_assoc. reflexivity.
Qed.

Lemma words_go_None s :
  String.words_go None s
  = match TrimLeftFunc isSpace s with
    | EmptyString => []
    | String c r =>
        String c (span nonSpace r).1 :: String.words_go None (span nonSpace r).2
    end.
Proof.
  induction s as [|c r IH]; simpl; [reflexivity|].
  unfold isSpace at 1. destruct (Ascii.is_space c); simpl; [exact IH|].
  now rewrite words_go_Some.
Qed.

Lemma words_TrimLeft s :
  String.words_go None (TrimLeftFunc isSpace s) = String.words_go None s.
Proof.
  induction s as [|c r IH]; simpl; [reflexivity|].
  unfold isSpace at 1. destruct (Ascii.is_space c) eqn:E; simpl; [exact IH|].
  now rewrite E.
Qed.

Lemma words_TrimRight s : ∀ cur,
  String.words_go cur (TrimRightFunc isSpace s) = String.words_go cur s.
Proof.
  induction s as [|c r IH]; intros cur; simpl; [reflexivity|].
  destruct (TrimRightFunc isSpace r) as [|c' r'] eqn:E.
  - unfold isSpace. destruct (Ascii.is_space c) eqn:Ec; simpl.
    + rewrite <- (IH None). simpl. now rewrite app_nil_r.
    + rewrite Ec. now rewrite <- IH.
  - simpl. destruct (Ascii.is_space c); now rewrite <- IH.
Qed.

Lemma Fields_TrimSpace s : Fields (TrimSpace s) = Fields s.
Proof.
  unfold Fields, String.words, TrimSpace. now rewrite words_TrimRight, words_TrimLeft.
Qed.

Lemma span_app_stop f a s :
  allBytes f a = true →
  match s with EmptyString => True | String c _ => f c = false end →
  span f (a +:+ s) = (a, s).
Proof.
  intros Ha Hs. induction a as [|x a IH]; simpl in *.
  - destruct s as [|c s]; [reflexivity|]. simpl. now rewrite Hs.
  - apply andb_prop in Ha as [Hx Ha].
    change (String x a +:+ s) with (String x (a +:+ s)). simpl.
    now rewrite Hx, (IH Ha).
Qed.

Lemma words_skip_blanks b s :
  allBytes isBlank b = true →
  String.words_go None (b +:+ s) = String.words_go None s.
Proof.
  intros Hb. induction b as [|x b IH]; [reflexivity|]. simpl in Hb.
  apply andb_prop in Hb as [Hx Hb].
  change (String x b +:+ s) with (String x (b +:+ s)). simpl.
  assert (E : Ascii.is_space x = true).
  { unfold isBlank in Hx. apply orb_true_iff in Hx as [Hx|Hx];
      apply Ascii.eqb_eq in Hx; now subst x. }
  rewrite E. simpl. now apply IH.
Qed.

Lemma isModByte_nonSpace c : isModByte c = true → nonSpace c = true.
Proof. destruct c as [[] [] [] [] [] [] [] []]; intros E; try reflexivity; exact E. Qed.

Lemma isBlank_space c : isBlank c = true → nonSpace c = false.
Proof.
  destruct c as [[] [] [] [] [] [] [] []]; intros E; try reflexivity;
    vm_compute in E; discriminate E.
Qed.

Lemma allBytes_weaken (f g : ascii → bool) s :
  (∀ c, f c = true → g c = true) → allBytes f s = true → allBytes g s = true.
Proof.
  intros Hfg. induction s as [|c s IH]; simpl; [reflexivity|].
  intros E. apply andb_prop in E as [Ec Es]. now rewrite (Hfg c Ec), IH.
Qed.

Lemma version_token_head l3 :
  match l3 with
  | String "v" (String c _) => negb (reSpace c)
  | _ => false
  end = true →
  ∃ c tl, l3 = String "v" (String c tl).
Proof.
  destruct l3 as [|v0 r]; [discriminate|].
  destruct v0 as [[] [] [] [] [] [] [] []]; try discriminate.
  destruct r as [|c tl]; [discriminate|]. eauto.
Qed.

(** The fields of a line that [reqLine] matches: the module path, then a
    token that begins with v. *)
Lemma reqLine_fields l :
  reqLine_matches l = true →
  ∃ name w rest, Fields (TrimSpace l) = name :: String "v" w :: rest
    ∧ name ≠ "" ∧ allBytes isModByte name = true.
Proof.
  unfold reqLine_matches.
  pose proof (span_app isBlank l) as E0. pose proof (span_allBytes isBlank l) as B0.
  destruct (span isBlank l) as [b l1]. simpl in E0, B0. cbv beta iota.
  pose proof (span_app (λ c, isWord c || inSet c "./-") l1) as E1.
  pose proof (span_allBytes (λ c, isWord c || inSet c "./-") l1) as B1.
  destruct (span (λ c, isWord c || inSet c "./-") l1) as [name l2].
  simpl in E1, B1. cbv beta iota.
  pose proof (span_app isBlank l2) as E2. pose proof (span_allBytes isBlank l2) as B2.
  destruct (span isBlank l2) as [gap l3]. simpl in E2, B2. cbv beta iota.
  intros Hm. apply andb_prop in Hm as [Hm H3]. apply andb_prop in Hm as [Hn Hg].
  apply negb_true_iff, String.eqb_neq in Hn, Hg.
  apply version_token_head in H3 as (c0 & tl & ->).
  destruct name as [|n0 nr]; [congruence|]. simpl in B1.
  apply andb_prop in B1 as [Bn0 Bnr].
  destruct gap as [|g0 gr]; [congruence|]. simpl in B2.
  apply andb_prop in B2 as [Bg0 Bgr].
  rewrite Fields_TrimSpace. unfold Fields, String.words.
  subst l l1 l2. rewrite (words_skip_blanks b _ B0).
  rewrite words_go_None.
  change (String n0 nr +:+ String g0 gr +:+ String "v" (String c0 tl))
    with (String n0 (nr +:+ String g0 (gr +:+ String "v" (String c0 tl)))).
  simpl. fold (isModByte n0) in Bn0. fold isModByte in Bnr.
  pose proof (isModByte_nonSpace n0 Bn0) as Hn0. unfold nonSpace in Hn0.
  apply negb_true_iff in Hn0. rewrite Hn0.
  rewrite (span_app_stop nonSpace nr (String g0 (gr +:+ String "v" (String c0 tl))));
    [|exact (allBytes_weaken _ _ nr isModByte_nonSpace Bnr) | now apply isBlank_space].
  cbn [fst snd].
  change (String g0 (gr +:+ String "v" (String c0 tl)))
    with (String g0 gr +:+ String "v" (String c0 tl)).
  rewrite (words_skip_blanks (String g0 gr)) by (cbn [allBytes]; now rewrite Bg0, Bgr).
  rewrite words_go_None. simpl.
  eexists (String n0 nr), _, _. split; [reflexivity|].
  split; [discriminate|].
  change (isModByte n0 && allBytes isModByte nr = true).
  apply andb_true_intro. split; [exact Bn0 | exact Bnr].
Qed.

Lemma goVersions_entries txt k v :
  goVersions txt !! k = Some v → require_entry k v.
Proof.
  revert k v. unfold goVersions.
  apply (foldl_keeps (λ st : bool * gmap string string,
           ∀ k v, st.2 !! k = Some v → require_entry k v)).
  - intros [inBlock m] line Hm. simpl in Hm. unfold goLine.
    repeat (case_match; simpl; try exact Hm).
    match goal with Hr : reqLine_matches _ = true |- _ =>
      destruct (reqLine_fields _ Hr) as (name & w & rest & Hf & Hn & Hb) end.
    match goal with Hf' : Fields _ = _ :: _ :: _ |- _ =>
      rewrite Hf in Hf'; injection Hf' as <- <- _ end.
    intros k v. destruct (decide (k = name)) as [->|Hk].
    + rewrite lookup_insert_eq. intros [= <-]. repeat split; eauto.
    + rewrite lookup_insert_ne by congruence. apply Hm.
  - intros k v Hk. simpl in Hk. now rewrite lookup_empty in Hk.
Qed.


(** X16. [goVersions] records a module only with a version token that
    begins with v, under a non-empty path made of letters, digits,
    underscore, dot, slash and hyphen. *)
Theorem goVersions_records_v_versions txt k v :
  goVersions txt !! k = Some v → require_entry k v.
Proof. apply goVersions_entries. Qed.

End GoModFacts.

(** * The flags, the clone directory and the median *)

Section FlagFacts.
Context `{FL : Flags}.

(** X17. [validateScopeFlags] lets the program go on exactly when one of
    the three stopping flags is positive and the other two are not. *)
Theorem validateScopeFlags_exactly_one :
  validateScopeFlags = true ↔
    (0 < maxCommits ∧ maxChanges ≤ 0 ∧ lookBackDays ≤ 0)
    ∨ (maxCommits ≤ 0 ∧ 0 < maxChanges ∧ lookBackDays ≤ 0)
    ∨ (maxCommits ≤ 0 ∧ maxChanges ≤ 0 ∧ 0 < lookBackDays).
Proof.
  unfold validateScopeFlags.
  destruct (Z.ltb_spec 0 maxCommits), (Z.ltb_spec 0 maxChanges),
           (Z.ltb_spec 0 lookBackDays); simpl; split; intros Hx;
    try discriminate; try reflexivity; lia.
Qed.

End FlagFacts.

Section PathFacts.
Import GoStrings Manifest Paths.

Lemma slength_app a b : String.length (a +:+ b) = (String.length a + String.length b)%nat.
Proof.
  induction a as [|c a IH]; [reflexivity|].
  change (String c a +:+ b) with (String c (a +:+ b)). simpl. now rewrite IH.
Qed.

Lemma TrimSuffix_app u suffix : TrimSuffix (u +:+ suffix) suffix = u.
Proof.
  induction u as [|c u IH].
  - destruct suffix as [|c s]; [reflexivity|]. simpl.
    now rewrite Ascii.eqb_refl, String.eqb_refl.
  - change (String c u +:+ suffix) with (String c (u +:+ suffix)).
    cbn [TrimSuffix].
    destruct (String.eqb_spec (String c (u +:+ suffix)) suffix) as [E|_].
    + apply (f_equal String.length) in E. simpl in E.
      rewrite slength_app in E. lia.
    + now rewrite IH.
Qed.

Lemma Split_no_sep s sep w :
  w ∈ Split s sep → allBytes (λ c, negb (Ascii.eqb c sep)) w = true.
Proof.
  revert w. induction s as [|c r IH]; intros w; simpl.
  - intros Hw. apply list_elem_of_singleton in Hw. now subst w.
  - destruct (Ascii.eqb c sep) eqn:E.
    + intros Hw. apply elem_of_cons in Hw as [-> | Hw]; [reflexivity | now apply IH].
    + destruct (Split r sep) as [|w0 ws] eqn:Es.
      * intros Hw. apply list_elem_of_singleton in Hw. subst w. simpl. now rewrite E.
      * intros Hw. apply elem_of_cons in Hw as [-> | Hw].
        -- simpl. rewrite E. simpl. apply IH. now left.
        -- apply IH. now right.
Qed.

Lemma Split_nonempty s sep : Split s sep ≠ [].
Proof.
  destruct s as [|c r]; simpl; [discriminate|].
  destruct (Ascii.eqb c sep); [discriminate|]. now destruct (Split r sep).
Qed.

Lemma last_elem {A} (l : list A) d : l ≠ [] → List.last l d ∈ l.
Proof.
  induction l as [|x [|y l] IH]; intros Hne; [congruence | now left |].
  right. apply IH. discriminate.
Qed.

Lemma Base_shape path :
  Base path = "/"
  ∨ (Base path ≠ "" ∧ allBytes (λ c, negb (isSlash c)) (Base path) = true).
Proof.
  unfold Base. destruct (String.eqb path ""); [right; split; [discriminate|reflexivity]|].
  destruct (String.eqb_spec (List.last (Split (TrimRightFunc isSlash path) "/") "") "")
    as [|Hne]; [now left|].
  right. split; [exact Hne|].
  apply (Split_no_sep (TrimRightFunc isSlash path) "/").
  apply last_elem, Split_nonempty.
Qed.

(** X18. [repoDir] names a directory right under the working directory:
    its result is ./ followed by one path element without a slash (or by
    a slash alone, for a URL of slashes only); and a URL gives the same
    directory with and without its .git ending. *)
Theorem repoDir_is_one_element url :
  (∃ base, repoDir url = "./" +:+ base
     ∧ (base = "/" ∨ (base ≠ "" ∧ allBytes (λ c, negb (isSlash c)) base = true)))
  ∧ (TrimSuffix url ".git" = url → repoDir (url +:+ ".git") = repoDir url).
Proof.
  split.
  - exists (Base (TrimSuffix url ".git")). split; [reflexivity | apply Base_shape].
  - intros E. unfold repoDir. now rewrite TrimSuffix_app, E.
Qed.

End PathFacts.

Section MedianFacts.

(** X19. For an odd number of values the median is one of the values. *)
Theorem median_of_odd_is_a_sample xs :
  Nat.Odd (length xs) → median xs ∈ xs.
Proof.
  intros [k Hk].
  pose proof (Float64s_length xs) as Hl.
  destruct (lookup_lt_is_Some_2 (Float64s xs) k) as [x Hx]; [lia|].
  pose proof (take_drop_middle (Float64s xs) k x Hx) as Hs.
  rewrite (median_odd xs (take k (Float64s xs)) x (drop (S k) (Float64s xs))).
  - rewrite <- (Float64s_perm xs). apply list_elem_of_lookup. eauto.
  - now symmetry.
  - rewrite length_take, length_drop. lia.
Qed.

End MedianFacts.

(** * The canonical form of the executable [semver] *)

Section CanonicalFacts.
Import GoStrings Manifest semver.

Lemma match_hyphen {A} (v : string) (a b : A) :
  match v with String "-" _ => a | _ => b end = if headIs "-" v then a else b.
Proof.
  destruct v as [|c r]; [reflexivity|].
  destruct c as [[] [] [] [] [] [] [] []]; reflexivity.
Qed.

Lemma match_plus {A} (v : string) (a b : A) :
  match v with String "+" _ => a | _ => b end = if headIs "+" v then a else b.
Proof.
  destruct v as [|c r]; [reflexivity|].
  destruct c as [[] [] [] [] [] [] [] []]; reflexivity.
Qed.

Lemma parseTail_unfold ma mi pa v :
  parseTail ma mi pa v =
    match (if headIs "-" v then parsePrerelease v else Some (EmptyString, v)) with
    | None => None
    | Some (pr, v1) =>
        match (if headIs "+" v1 then parseBuild v1 else Some (EmptyString, v1)) with
        | None => None
        | Some (b, v2) =>
            if String.eqb v2 "" then Some (mkParsed ma mi pa "" pr b) else None
        end
    end.
Proof.
  unfold parseTail. rewrite match_hyphen.
  assert (E : match parsePrerelease v with
              | Some (t, rest) => Some (t, rest) | None => None end
              = parsePrerelease v) by now destruct (parsePrerelease v) as [[]|].
  rewrite E.
  destruct (if headIs "-" v then parsePrerelease v else Some ("", v)) as [[pr v1]|];
    [|reflexivity].
  now rewrite match_plus.
Qed.

Lemma parse_unfold v :
  parse v =
    match v with
    | EmptyString => None
    | String c v0 =>
        if Ascii.eqb c "v" then
          match parseInt v0 with
          | None => None
          | Some (ma, EmptyString) => Some (mkParsed ma "0" "0" ".0.0" "" "")
          | Some (ma, String d v1) =>
              if Ascii.eqb d "." then
                match parseInt v1 with
                | None => None
                | Some (mi, EmptyString) => Some (mkParsed ma mi "0" ".0" "" "")
                | Some (mi, String e v2) =>
                    if Ascii.eqb e "." then
                      match parseInt v2 with
                      | None => None
                      | Some (pa, v3) => parseTail ma mi pa v3
                      end
                    else None
                end
              else None
          end
        else None
    end.
Proof.
  destruct v as [|c v0]; [reflexivity|].
  destruct c as [[] [] [] [] [] [] [] []]; try reflexivity.
  unfold parse. cbn [Ascii.eqb Bool.eqb].
  destruct (parseInt v0) as [[ma [|d v1]]|]; try reflexivity.
  destruct d as [[] [] [] [] [] [] [] []]; try reflexivity.
  cbn [Ascii.eqb Bool.eqb].
  destruct (parseInt v1) as [[mi [|e v2]]|]; try reflexivity.
  destruct e as [[] [] [] [] [] [] [] []]; reflexivity.
Qed.

Lemma digits_span v : digits v = span isDigit v.
Proof.
  induction v as [|c r IH]; simpl; [reflexivity|].
  destruct (isDigit c); [|reflexivity]. now rewrite IH.
Qed.

Lemma parseInt_Some v t rest :
  parseInt v = Some (t, rest) → v = t +:+ rest ∧ intShape t ∧ noDigitHead rest.
Proof.
  unfold parseInt. destruct v as [|c r]; [discriminate|].
  destruct (isDigit c) eqn:Hc; simpl; [|discriminate].
  rewrite digits_span.
  pose proof (span_app isDigit r) as Ha. pose proof (span_allBytes isDigit r) as Hb.
  pose proof (span_rest isDigit r) as Hr.
  destruct (span isDigit r) as [d rest0]. simpl in Ha, Hb, Hr.
  destruct (Ascii.eqb c "0" && negb (String.eqb d "")) eqn:Hz; [discriminate|].
  intros [= <- <-]. split; [|split].
  - change (String c r = String c (d +:+ rest0)). now f_equal.
  - now exists c, d.
  - exact Hr.
Qed.

Lemma parseInt_build t rest :
  intShape t → noDigitHead rest → parseInt (t +:+ rest) = Some (t, rest).
Proof.
  intros (c & ds & -> & Hc & Hds & Hz) Hr.
  change (String c ds +:+ rest) with (String c (ds +:+ rest)).
  unfold parseInt. rewrite Hc. simpl. rewrite digits_span.
  rewrite (span_app_stop isDigit ds rest Hds Hr). now rewrite Hz.
Qed.

Lemma stopHead_finish cur rest' :
  stopHead rest' →
  prereleaseLoop cur rest'
  = if String.eqb cur "" || isBadNum cur then None else Some (EmptyString, rest').
Proof.
  destruct rest' as [|c r]; simpl; [reflexivity|]. now intros ->.
Qed.

Lemma prereleaseLoop_Some v : ∀ cur t rest,
  prereleaseLoop cur v = Some (t, rest) →
  v = t +:+ rest ∧ stopHead rest
  ∧ ∀ rest', stopHead rest' → prereleaseLoop cur (t +:+ rest') = Some (t, rest').
Proof.
  induction v as [|c r IH]; intros cur t rest.
  - simpl. destruct (_ || _) eqn:E; [discriminate|]. intros [= <- <-].
    repeat split. intros rest' Hs.
    change (EmptyString +:+ rest') with rest'.
    rewrite (stopHead_finish cur rest' Hs). now rewrite E.
  - cbn [prereleaseLoop]. destruct (Ascii.eqb_spec c "+") as [->|Hplus].
    + destruct (_ || _) eqn:E; [discriminate|]. intros [= <- <-].
      repeat split. intros rest' Hs.
      change (EmptyString +:+ rest') with rest'.
    rewrite (stopHead_finish cur rest' Hs). now rewrite E.
    + destruct (negb (isIdentChar c) && negb (Ascii.eqb c ".")) eqn:Hbad; [discriminate|].
      destruct (Ascii.eqb c ".") eqn:Hdot.
      * destruct (String.eqb cur "" || isBadNum cur) eqn:E; [discriminate|].
        destruct (prereleaseLoop "" r) as [[t0 rest0]|] eqn:El; [|discriminate].
        simpl. intros [= <- <-].
        destruct (IH _ _ _ El) as (-> & Hs & Hre). repeat split; [exact Hs|].
        intros rest' Hs'.
        change (String c t0 +:+ rest') with (String c (t0 +:+ rest')).
        cbn [prereleaseLoop]. destruct (Ascii.eqb_spec c "+"); [congruence|].
        rewrite Hdot, Hbad, E, (Hre rest' Hs'). reflexivity.
      * destruct (prereleaseLoop (cur +:+ String c "") r) as [[t0 rest0]|] eqn:El;
          [|discriminate].
        simpl. intros [= <- <-].
        destruct (IH _ _ _ El) as (-> & Hs & Hre). repeat split; [exact Hs|].
        intros rest' Hs'.
        change (String c t0 +:+ rest') with (String c (t0 +:+ rest')).
        cbn [prereleaseLoop]. destruct (Ascii.eqb_spec c "+"); [congruence|].
        rewrite Hdot, Hbad, (Hre rest' Hs'). reflexivity.
Qed.

Lemma parsePrerelease_Some v t rest :
  parsePrerelease v = Some (t, rest) →
  v = t +:+ rest ∧ stopHead rest ∧ headIs "-" t = true
  ∧ ∀ rest', stopHead rest' → parsePrerelease (t +:+ rest') = Some (t, rest').
Proof.
  unfold parsePrerelease. destruct v as [|c r]; [discriminate|].
  destruct (Ascii.eqb_spec c "-") as [->|]; [|discriminate].
  destruct (prereleaseLoop "" r) as [[t0 rest0]|] eqn:El; [|discriminate].
  simpl. intros [= <- <-].
  destruct (prereleaseLoop_Some _ _ _ _ El) as (-> & Hs & Hre).
  repeat split; [exact Hs|]. intros rest' Hs'.
  change (String "-" t0 +:+ rest') with (String "-" (t0 +:+ rest')).
  cbn [Ascii.eqb Bool.eqb]. now rewrite (Hre rest' Hs').
Qed.

Lemma buildLoop_Some v : ∀ cur t rest,
  buildLoop cur v = Some (t, rest) → v = t ∧ rest = "".
Proof.
  induction v as [|c r IH]; intros cur t rest; cbn [buildLoop].
  - destruct (String.eqb cur ""); [discriminate|]. now intros [= <- <-].
  - destruct (negb (isIdentChar c) && negb (Ascii.eqb c ".")); [discriminate|].
    destruct (Ascii.eqb c ".").
    + destruct (String.eqb cur ""); [discriminate|].
      destruct (buildLoop "" r) as [[t0 rest0]|] eqn:E0; [|discriminate].
      simpl. intros [= <- <-]. destruct (IH _ _ _ E0) as [-> ->]. now split.
    + destruct (buildLoop _ r) as [[t0 rest0]|] eqn:E0; [|discriminate].
      simpl. intros [= <- <-]. destruct (IH _ _ _ E0) as [-> ->]. now split.
Qed.

Lemma parseBuild_Some v b v2 : parseBuild v = Some (b, v2) → v = b ∧ v2 = "".
Proof.
  unfold parseBuild. destruct v as [|c r]; [discriminate|].
  destruct (Ascii.eqb c "+"); [|discriminate].
  destruct (buildLoop "" r) as [[t0 rest0]|] eqn:E0; [|discriminate].
  simpl. intros [= <- <-]. destruct (buildLoop_Some _ _ _ _ E0) as [-> ->]. now split.
Qed.

Lemma parseTail_Some ma mi pa v p :
  parseTail ma mi pa v = Some p →
  p = mkParsed ma mi pa "" (prerelease p) (build p)
  ∧ v = prerelease p +:+ build p
  ∧ noDigitHead (prerelease p)
  ∧ parseTail ma mi pa (prerelease p)
    = Some (mkParsed ma mi pa "" (prerelease p) "").
Proof.
  rewrite parseTail_unfold.
  destruct (headIs "-" v) eqn:Hh.
  - destruct (parsePrerelease v) as [[pr v1]|] eqn:Ep; [|discriminate].
    destruct (parsePrerelease_Some _ _ _ Ep) as (-> & Hs & Hhead & Hre).
    assert (Hv1 : ∀ b v2,
              (if headIs "+" v1 then parseBuild v1 else Some ("", v1)) = Some (b, v2) →
              String.eqb v2 "" = true → v1 = b).
    { intros b v2. destruct (headIs "+" v1).
      - intros Eb _. now destruct (parseBuild_Some _ _ _ Eb).
      - intros [= <- <-] Ev. now apply String.eqb_eq in Ev. }
    destruct (if headIs "+" v1 then parseBuild v1 else Some ("", v1))
      as [[b v2]|] eqn:Eb; [|discriminate].
    destruct (String.eqb v2 "") eqn:Ev; [|discriminate].
    intros [= <-]. simpl. rewrite (Hv1 b v2 eq_refl Ev). repeat split.
    + destruct pr as [|c r]; [exact I|]. simpl in Hhead.
      apply Ascii.eqb_eq in Hhead. now subst c.
    + rewrite parseTail_unfold, Hhead.
      specialize (Hre "" I). rewrite sapp_nil_r in Hre. now rewrite Hre.
  - assert (Hv : ∀ b v2,
              (if headIs "+" v then parseBuild v else Some ("", v)) = Some (b, v2) →
              String.eqb v2 "" = true → v = b).
    { intros b v2. destruct (headIs "+" v).
      - intros Eb _. now destruct (parseBuild_Some _ _ _ Eb).
      - intros [= <- <-] Ev. now apply String.eqb_eq in Ev. }
    destruct (if headIs "+" v then parseBuild v else Some ("", v))
      as [[b v2]|] eqn:Eb; [|discriminate].
    destruct (String.eqb v2 "") eqn:Ev; [|discriminate].
    intros [= <-]. simpl. rewrite (Hv b v2 eq_refl Ev). repeat split.
Qed.

Lemma noDigit_dot r : noDigitHead (String "." r).
Proof. reflexivity. Qed.

(** [parse] on a version written out in full. *)
Lemma parse_build ma mi pa tail p :
  intShape ma → intShape mi → intShape pa → noDigitHead tail →
  parseTail ma mi pa tail = Some p →
  parse (String "v" (ma +:+ String "." (mi +:+ String "." (pa +:+ tail)))) = Some p.
Proof.
  intros Hma Hmi Hpa Ht Hp. rewrite parse_unfold.
  cbn [Ascii.eqb Bool.eqb].
  rewrite (parseInt_build ma _ Hma (noDigit_dot _)). cbn [Ascii.eqb Bool.eqb].
  rewrite (parseInt_build mi _ Hmi (noDigit_dot _)). cbn [Ascii.eqb Bool.eqb].
  now rewrite (parseInt_build pa _ Hpa Ht).
Qed.

Lemma substring_prefix a b : String.substring 0 (String.length a) (a +:+ b) = a.
Proof.
  induction a as [|c a IH]; simpl.
  - now destruct b.
  - change (String c a +:+ b) with (String c (a +:+ b)). simpl. now rewrite IH.
Qed.

Lemma Canonical_of_full v p :
  parse v = Some p → build p = "" → short p = "" → Canonical v = v.
Proof. intros Hp Hb Hs. unfold Canonical. now rewrite Hp, Hb, Hs. Qed.

Lemma intShape_zero : intShape "0".
Proof. exists "0"%char, EmptyString. now repeat split. Qed.

(** What [Canonical] returns for a valid version is itself a valid
    version, written in full and without build metadata. *)
Lemma Canonical_Some v p :
  parse v = Some p →
  ∃ q, parse (Canonical v) = Some q ∧ build q = "" ∧ short q = "".
Proof.
  intros Hp. pose proof Hp as Hp0. rewrite parse_unfold in Hp0.
  destruct v as [|c v0]; [discriminate|].
  destruct (Ascii.eqb_spec c "v") as [->|]; [|discriminate].
  destruct (parseInt v0) as [[ma rest]|] eqn:Ema; [|discriminate].
  destruct (parseInt_Some _ _ _ Ema) as (-> & Hma & _).
  destruct rest as [|d v1].
  { injection Hp0 as <-. unfold Canonical. rewrite Hp. cbn [build short].
    rewrite sapp_nil_r. exists (mkParsed ma "0" "0" "" "" ""). split; [|now split].
    exact (parse_build ma "0" "0" "" _ Hma intShape_zero intShape_zero I eq_refl). }
  destruct (Ascii.eqb_spec d ".") as [->|]; [|discriminate].
  destruct (parseInt v1) as [[mi rest]|] eqn:Emi; [|discriminate].
  destruct (parseInt_Some _ _ _ Emi) as (-> & Hmi & _).
  destruct rest as [|e v2].
  { injection Hp0 as <-. unfold Canonical. rewrite Hp. cbn [build short].
    rewrite sapp_nil_r. exists (mkParsed ma mi "0" "" "" ""). split; [|now split].
    change (String "v" (ma +:+ String "." mi) +:+ ".0")
      with (String "v" ((ma +:+ String "." mi) +:+ ".0")).
    rewrite sapp_assoc.
    exact (parse_build ma mi "0" "" _ Hma Hmi intShape_zero I eq_refl). }
  destruct (Ascii.eqb_spec e ".") as [->|]; [|discriminate].
  destruct (parseInt v2) as [[pa v3]|] eqn:Epa; [|discriminate].
  destruct (parseInt_Some _ _ _ Epa) as (-> & Hpa & _).
  destruct (parseTail_Some _ _ _ _ _ Hp0) as (Hshape & -> & Hnd & Hre).
  assert (Hs : short p = "") by now rewrite Hshape.
  set (pr := prerelease p) in *. set (b := build p) in *.
  set (W := String "v" (ma +:+ String "." (mi +:+ String "." (pa +:+ pr)))).
  assert (HW : String "v" (ma +:+ String "." (mi +:+ String "." (pa +:+ pr +:+ b)))
               = W +:+ b).
  { unfold W. change (String "v" ?x +:+ b) with (String "v" (x +:+ b)).
    rewrite sapp_assoc.
    change (String "." ?x +:+ b) with (String "." (x +:+ b)).
    rewrite sapp_assoc.
    change (String "." ?x +:+ b) with (String "." (x +:+ b)).
    now rewrite sapp_assoc. }
  rewrite HW in Hp |- *.
  assert (HC : Canonical (W +:+ b) = W).
  { unfold Canonical. rewrite Hp. fold b.
    destruct (String.eqb_spec b "") as [Hb|Hb]; cbn [negb].
    - rewrite Hs. cbn [String.eqb negb]. now rewrite Hb, sapp_nil_r.
    - rewrite slength_app, Nat.add_sub. apply substring_prefix. }
  rewrite HC. exists (mkParsed ma mi pa "" pr ""). split; [|now split].
  exact (parse_build ma mi pa pr _ Hma Hmi Hpa Hnd Hre).
Qed.

Lemma Canonical_None v : parse v = None → Canonical v = "".
Proof. intros Hp. unfold Canonical. now rewrite Hp. Qed.

Lemma Canonical_idem v : Canonical (Canonical v) = Canonical v.
Proof.
  destruct (parse v) as [p|] eqn:Hp.
  - destruct (Canonical_Some v p Hp) as (q & Hq & Hb & Hs).
    exact (Canonical_of_full _ q Hq Hb Hs).
  - now rewrite (Canonical_None v Hp).
Qed.

Lemma Canonical_needs_v v : HasPrefix v "v" = false → Canonical v = "".
Proof.
  intros Hv. apply Canonical_None. rewrite parse_unfold.
  destruct v as [|c r]; [reflexivity|].
  destruct (Ascii.eqb c "v") eqn:E; [|reflexivity].
  apply Ascii.eqb_eq in E. subst c. destruct r; cbv in Hv; discriminate Hv.
Qed.

End CanonicalFacts.

#[export] Instance xmod_semver_canonical : @SemverCanonical xmod_semver.
Proof.
  split.
  - exact Canonical_idem.
  - exact Canonical_needs_v.
  - reflexivity.
Qed.


(** * [canon] *)

Section CanonFacts.
Context `{SV : Semver} {SC : SemverCanonical}.
Import GoStrings.

Lemma HasPrefix_v v : HasPrefix ("v" +:+ v) "v" = true.
Proof. now destruct v. Qed.

(** X20. [canon] accepts a version with or without the leading v: a
    string that lacks the prefix is canonicalised as the prefixed one. *)
Theorem canon_accepts_both_spellings v :
  HasPrefix v "v" = false →
  canon v = semver_Canonical ("v" +:+ v) ∧ canon ("v" +:+ v) = canon v.
Proof.
  intros Hv. assert (Hc : canon v = semver_Canonical ("v" +:+ v)).
  { unfold canon. rewrite (semver_Canonical_prefix v Hv), Hv. reflexivity. }
  split; [exact Hc|]. rewrite Hc. unfold canon. rewrite HasPrefix_v.
  now rewrite andb_false_r.
Qed.

(** X21. [canon] is idempotent, and what it returns is empty or begins
    with v. *)
Theorem canon_is_idempotent v :
  canon (canon v) = canon v
  ∧ (canon v = "" ∨ HasPrefix (canon v) "v" = true).
Proof.
  assert (Hshape : ∀ w, semver_Canonical w = "" ∨ HasPrefix (semver_Canonical w) "v" = true).
  { intros w. destruct (HasPrefix (semver_Canonical w) "v") eqn:E; [now right|left].
    rewrite <- semver_Canonical_idem. now apply semver_Canonical_prefix. }
  assert (Hc : ∃ w, canon v = semver_Canonical w).
  { unfold canon. now eexists. }
  destruct Hc as [w Hc]. split; [|rewrite Hc; apply Hshape].
  rewrite Hc. unfold canon at 1. rewrite semver_Canonical_idem.
  destruct (Hshape w) as [E|E].
  - rewrite E. simpl. rewrite sapp_nil_r. apply semver_Canonical_bare.
  - rewrite E, andb_false_r. apply semver_Canonical_idem.
Qed.

End CanonFacts.

(** * Further properties of the update-lag engine *)

Section EngineInvariants.
Context `{SV : Semver} `{GIT : Git} `{RT : Runtime} `{FL : Flags}.
Variable relTime : string → string → netstate → netstate * option Z.
Variable snapshot : Commit → option (gmap string string).

(** What one iteration of the inner loop can do to the state. *)
Lemma depStep_cases c dep newV s :
  (depStep relTime c dep newV s = Next s)
  ∨ ∃ oldV, candidate s dep oldV newV
      ∧ depStep relTime c dep newV s = upgrade relTime c dep oldV newV s.
Proof.
  unfold depStep. destruct (prev s !! dep) as [oldV|] eqn:Hp; [|now left].
  destruct (String.eqb_spec oldV newV) as [|Hne]; [now left|].
  destruct (String.eqb_spec (canon oldV) "") as [|Ho]; [now left|].
  destruct (String.eqb_spec (canon newV) "") as [|Hn]; [now left|]. simpl.
  destruct (Z.leb_spec 0 (semver_Compare (canon oldV) (canon newV))); [now left|].
  right. exists oldV. repeat split; assumption.
Qed.

Lemma upgrade_cases c dep oldV newV s :
  (∃ n1 k, upgrade relTime c dep oldV newV s
           = Next (mkState (prev s) (out s) n1 k))
  ∨ ∃ n1 rel, relTime dep newV (net s) = (n1, Some rel)
      ∧ implausible (lagDays (AuthorWhen c) rel) = false
      ∧ (upgrade relTime c dep oldV newV s
           = Break (mkState (prev s) (out s ++ [sample c dep oldV newV rel]) n1 (noise s))
         ∨ upgrade relTime c dep oldV newV s
           = Next (mkState (<[dep := newV]> (prev s))
                     (out s ++ [sample c dep oldV newV rel]) n1 (noise s))).
Proof.
  unfold upgrade. destruct (relTime dep newV (net s)) as [n1 [rel|]]; [|left; eauto].
  destruct (implausible _) eqn:Hi; [left; eauto|].
  right. exists n1, rel. repeat split; [exact Hi|].
  destruct (budgetReached _); [now left | now right].
Qed.

Lemma rangeCurr_keeps (I : state → Prop) c l s :
  (∀ c dep newV s, I s → I (final (depStep relTime c dep newV s))) →
  I s → I (final (rangeCurr relTime c l s)).
Proof.
  intros Hstep. revert s. induction l as [|[d v] l IH]; intros s Hs; simpl; [exact Hs|].
  pose proof (Hstep c d v s Hs) as Hd.
  destruct (depStep relTime c d v s) as [s1|s1]; simpl in *; [now apply IH | exact Hd].
Qed.

Lemma commitLoop_keeps (I : state → Prop) idx hashes s :
  stepInvariant relTime I → I s → I (final (commitLoop relTime snapshot idx hashes s)).
Proof.
  intros [Hinit Hstep]. revert idx s.
  induction hashes as [|h rest IH]; intros idx s Hs; simpl; [exact Hs|].
  destruct (CommitObject h) as [c|]; [|now apply IH].
  destruct (snapshot c) as [curr|]; [|now apply IH].
  destruct (Nat.eqb idx 0); [apply IH; now apply Hinit|].
  pose proof (rangeCurr_keeps I c (rangeOrder idx curr) s Hstep Hs) as Hr.
  destruct (rangeCurr relTime c (rangeOrder idx curr) s) as [s1|s1];
    simpl in *; [now apply IH | exact Hr].
Qed.

(** The same for the walk past its first index, where the baseline is no
    longer replaced. *)
Lemma commitLoop_keeps_tracking (I : state → Prop) idx hashes s :
  (∀ c dep newV s, I s → I (final (depStep relTime c dep newV s))) →
  I s → I (final (commitLoop relTime snapshot (S idx) hashes s)).
Proof.
  intros Hstep. revert idx s.
  induction hashes as [|h rest IH]; intros idx s Hs; simpl; [exact Hs|].
  destruct (CommitObject h) as [c|]; [|now apply IH].
  destruct (snapshot c) as [curr|]; [|now apply IH].
  pose proof (rangeCurr_keeps I c (rangeOrder (S idx) curr) s Hstep Hs) as Hr.
  destruct (rangeCurr relTime c (rangeOrder (S idx) curr) s) as [s1|s1];
    simpl in *; [now apply IH | exact Hr].
Qed.

(** The record of a change that the loop body accepts. *)
Lemma depStep_out c dep newV s :
  out (final (depStep relTime c dep newV s)) = out s
  ∨ ∃ oldV rel, candidate s dep oldV newV
      ∧ implausible (lagDays (AuthorWhen c) rel) = false
      ∧ out (final (depStep relTime c dep newV s))
        = out s ++ [sample c dep oldV newV rel].
Proof.
  destruct (depStep_cases c dep newV s) as [-> | (oldV & Hc & ->)]; [now left|].
  destruct (upgrade_cases c dep oldV newV s)
    as [(n1 & k & ->) | (n1 & rel & _ & Hi & [-> | ->])]; simpl;
    [now left | right; exists oldV, rel; auto ..].
Qed.

(** X1. The output only grows: whatever the walk finds, the records
    already in [out] stay where they are, in their order. *)
Theorem out_is_append_only idx hashes s :
  out s `prefix_of` out (final (commitLoop relTime snapshot idx hashes s)).
Proof.
  apply (commitLoop_keeps (λ s', out s `prefix_of` out s')); [|reflexivity].
  split; [auto|]. intros c dep newV s' Hs'.
  destruct (depStep_out c dep newV s') as [-> | (oldV & rel & _ & _ & ->)];
    [exact Hs'|].
  etrans; [exact Hs' | now apply prefix_app_r].
Qed.

Lemma soundRecord_kept :
  stepInvariant relTime (λ s', Forall soundRecord (out s')).
Proof.
  split; [auto|]. intros c dep newV s' Hs'.
  destruct (depStep_out c dep newV s')
    as [-> | (oldV & rel & (_ & Hne & Ho & Hn & Hlt) & Hi & ->)]; [exact Hs'|].
  apply Forall_app. split; [exact Hs'|]. constructor; [|constructor].
  unfold implausible in Hi. apply orb_false_iff in Hi as [Hi1 Hi2].
  repeat split; assumption.
Qed.

(** X2. The walk never reports a downgrade, an unchanged or
    non-canonical version, or a lag outside 0..365 days: every record it
    appends is a strict upgrade with a plausible lag. *)
Theorem records_are_sound idx hashes s :
  Forall soundRecord (out s) →
  Forall soundRecord (out (final (commitLoop relTime snapshot idx hashes s))).
Proof.
  apply (commitLoop_keeps (λ s', Forall soundRecord (out s'))), soundRecord_kept.
Qed.

(** X3. The resolver is consulted for strict upgrades only: an iteration
    that changes the resolver's state (cache or request log) is one whose
    declared version passed every guard before the lookup. *)
Theorem resolver_only_for_upgrades c dep newV s :
  net (final (depStep relTime c dep newV s)) ≠ net s →
  ∃ oldV, candidate s dep oldV newV.
Proof.
  intros Hnet.
  destruct (depStep_cases c dep newV s) as [E | (oldV & Hc & _)];
    [rewrite E in Hnet; now contradiction Hnet | now exists oldV].
Qed.

(** X4. A commit whose manifest declares, for every dependency of the
    baseline, the version the baseline holds is passed without a trace: no
    record, no lookup, no change of the baseline. *)
Theorem unchanged_manifest_is_silent c (l : list (string * string)) s :
  (∀ dep v, (dep, v) ∈ l → prev s !! dep = None ∨ prev s !! dep = Some v) →
  rangeCurr relTime c l s = Next s.
Proof.
  induction l as [|[d v] l IH]; intros Hl; simpl; [reflexivity|].
  assert (E : depStep relTime c d v s = Next s).
  { destruct (Hl d v) as [Hn | Hv]; [left|..];
      [now apply depStep_absent | now apply depStep_same]. }
  rewrite E. apply IH. intros dep w Hin. apply Hl. now right.
Qed.

Lemma depStep_no_cap c dep newV s :
  maxChanges ≤ 0 → halted (depStep relTime c dep newV s) = false.
Proof.
  intros Hcap. unfold depStep, upgrade, budgetReached.
  destruct (Z.ltb_spec 0 maxChanges); [lia|]. simpl.
  repeat (case_match; simpl; try reflexivity).
Qed.

(** X5. Without a positive [maxChanges] the walk is never left early:
    every commit of the list is visited. *)
Theorem no_budget_no_halt idx hashes s :
  maxChanges ≤ 0 →
  halted (commitLoop relTime snapshot idx hashes s) = false.
Proof.
  intros Hcap. revert idx s. induction hashes as [|h rest IH]; intros idx s; simpl;
    [reflexivity|].
  destruct (CommitObject h) as [c|]; [|apply IH].
  destruct (snapshot c) as [curr|]; [|apply IH].
  destruct (Nat.eqb idx 0); [apply IH|].
  assert (Hr : ∀ l s', halted (rangeCurr relTime c l s') = false).
  { induction l as [|[d v] l IHl]; intros s'; simpl; [reflexivity|].
    pose proof (depStep_no_cap c d v s' Hcap) as Hd.
    destruct (depStep relTime c d v s'); [apply IHl | discriminate]. }
  specialize (Hr (rangeOrder idx curr) s).
  destruct (rangeCurr relTime c (rangeOrder idx curr) s); [apply IH | discriminate].
Qed.

(** X6. A walk of at most one commit reports nothing and asks the
    registry nothing: the first commit only sets the baseline. *)
Theorem single_commit_reports_nothing hashes s :
  (length hashes ≤ 1)%nat →
  ∃ p, commitLoop relTime snapshot 0 hashes s
       = Next (mkState p (out s) (net s) (noise s)).
Proof.
  destruct hashes as [|h [|h' rest]]; simpl; intros Hlen; try lia.
  - exists (prev s). now destruct s.
  - destruct (CommitObject h) as [c|]; [|exists (prev s); now destruct s].
    destruct (snapshot c) as [curr|]; [|exists (prev s); now destruct s].
    now exists curr.
Qed.

(** X7. [capCommits] keeps a prefix of the walk, that is the oldest
    commits, at most [maxCommits] of them when that flag is positive; it
    keeps the whole walk otherwise. *)
Theorem capCommits_keeps_oldest hashes :
  capCommits hashes `prefix_of` hashes
  ∧ (0 < maxCommits → Z.of_nat (length (capCommits hashes)) ≤ maxCommits)
  ∧ (maxCommits ≤ 0 → capCommits hashes = hashes).
Proof.
  unfold capCommits. repeat split.
  - destruct (_ && _); [apply prefix_take | reflexivity].
  - intros Hpos. destruct (Z.ltb_spec 0 maxCommits); [|lia]. simpl.
    destruct (Z.ltb_spec maxCommits (Z.of_nat (length hashes))); [|lia].
    rewrite length_take. lia.
  - intros Hle. destruct (Z.ltb_spec 0 maxCommits); [lia|]. reflexivity.
Qed.

(** X8. Past the first commit the set of tracked dependencies is fixed:
    the baseline has the same keys at the end of the walk as it had
    before. *)
Theorem tracked_dependencies_are_fixed idx hashes s :
  dom (prev (final (commitLoop relTime snapshot (S idx) hashes s))) = dom (prev s).
Proof.
  apply (commitLoop_keeps_tracking (λ s', dom (prev s') = dom (prev s)));
    [|reflexivity].
  intros c dep newV s' Hs'.
  destruct (depStep_cases c dep newV s') as [-> | (oldV & (Hp & _) & ->)];
    [exact Hs'|].
  destruct (upgrade_cases c dep oldV newV s')
    as [(n1 & k & ->) | (n1 & rel & _ & _ & [-> | ->])]; simpl; try exact Hs'.
  rewrite dom_insert_L, <- Hs'.
  apply subseteq_union_1_L, singleton_subseteq_l.
  now apply elem_of_dom_2 in Hp.
Qed.

(** X9. Past the first commit the baseline changes only through accepted
    upgrades: when the entry of a dependency differs after the walk, the
    walk has appended a record for that dependency whose new version is
    the entry. *)
Theorem baseline_change_has_a_record idx hashes s dep :
  prev (final (commitLoop relTime snapshot (S idx) hashes s)) !! dep ≠ prev s !! dep →
  ∃ new d,
    out (final (commitLoop relTime snapshot (S idx) hashes s)) = out s ++ new
    ∧ d ∈ new ∧ Dep d = dep
    ∧ prev (final (commitLoop relTime snapshot (S idx) hashes s)) !! dep
      = Some (NewVer d).
Proof.
  set (I := λ s' : state, ∃ new, out s' = out s ++ new
              ∧ (prev s' !! dep ≠ prev s !! dep →
                 ∃ d, d ∈ new ∧ Dep d = dep ∧ prev s' !! dep = Some (NewVer d))).
  assert (HI : I (final (commitLoop relTime snapshot (S idx) hashes s))).
  { apply (commitLoop_keeps_tracking I).
    - intros c k newV s' (new & Hout & Hch).
      destruct (depStep_cases c k newV s') as [-> | (oldV & Hc & ->)];
        [now exists new|].
      destruct (upgrade_cases c k oldV newV s')
        as [(n1 & j & ->) | (n1 & rel & _ & _ & [-> | ->])]; unfold I; simpl.
      + now exists new.
      + exists (new ++ [sample c k oldV newV rel]). split.
        * now rewrite Hout, app_assoc.
        * intros Hne. destruct (Hch Hne) as (d & Hd & Hdep & Hv).
          exists d. split; [apply elem_of_app; now left | auto].
      + exists (new ++ [sample c k oldV newV rel]). split.
        * now rewrite Hout, app_assoc.
        * destruct (decide (k = dep)) as [->|Hk].
          -- intros _. exists (sample c dep oldV newV rel).
             split; [apply elem_of_app; right; now left|].
             split; [reflexivity|]. apply lookup_insert_eq.
          -- rewrite lookup_insert_ne by exact Hk. intros Hne.
             destruct (Hch Hne) as (d & Hd & Hdep & Hv).
             exists d. split; [apply elem_of_app; now left | auto].
    - exists []. split; [now rewrite app_nil_r | intros Hne; now contradiction Hne]. }
  intros Hne. destruct HI as (new & Hout & Hch).
  destruct (Hch Hne) as (d & Hd & Hdep & Hv). now exists new, d.
Qed.

Lemma depStep_entries (E : string → string → Prop) c dep newV s :
  E dep newV → entriesOK E s → entriesOK E (final (depStep relTime c dep newV s)).
Proof.
  intros He [Hp Ho].
  destruct (depStep_cases c dep newV s) as [-> | (oldV & (Hold & _) & ->)];
    [now split|].
  assert (Hrec : ∀ rel, Forall (λ d, E (Dep d) (OldVer d) ∧ E (Dep d) (NewVer d))
                          (out s ++ [sample c dep oldV newV rel])).
  { intros rel. apply Forall_app. split; [exact Ho|]. constructor; [|constructor].
    simpl. split; [now apply Hp | exact He]. }
  destruct (upgrade_cases c dep oldV newV s)
    as [(n1 & k & ->) | (n1 & rel & _ & _ & [-> | ->])]; simpl.
  - now split.
  - split; [exact Hp | apply Hrec].
  - split; [|apply Hrec]. simpl. intros k v.
    destruct (decide (k = dep)) as [->|Hk].
    + rewrite lookup_insert_eq. now intros [= <-].
    + rewrite lookup_insert_ne by congruence. apply Hp.
Qed.

Lemma rangeCurr_entries (E : string → string → Prop) c l s :
  (∀ k v, (k, v) ∈ l → E k v) →
  entriesOK E s → entriesOK E (final (rangeCurr relTime c l s)).
Proof.
  revert s. induction l as [|[d v] l IH]; intros s Hl Hs; simpl; [exact Hs|].
  assert (Hd : entriesOK E (final (depStep relTime c d v s))).
  { apply depStep_entries; [|exact Hs]. apply Hl. now left. }
  destruct (depStep relTime c d v s) as [s1|s1]; simpl in *; [|exact Hd].
  apply IH; [|exact Hd]. intros k w Hk. apply Hl. now right.
Qed.

Lemma commitLoop_entries {RV : RangeVisitsAll} (E : string → string → Prop)
    idx hashes s :
  (∀ c curr k v, snapshot c = Some curr → curr !! k = Some v → E k v) →
  entriesOK E s →
  entriesOK E (final (commitLoop relTime snapshot idx hashes s)).
Proof.
  intros Hsnap. revert idx s.
  induction hashes as [|h rest IH]; intros idx s Hs; simpl; [exact Hs|].
  destruct (CommitObject h) as [c|]; [|now apply IH].
  destruct (snapshot c) as [curr|] eqn:Hc; [|now apply IH].
  destruct (Nat.eqb idx 0).
  - apply IH. destruct Hs as [_ Ho]. split; [|exact Ho]. simpl.
    intros k v. now apply (Hsnap c curr).
  - assert (Hr : entriesOK E (final (rangeCurr relTime c (rangeOrder idx curr) s))).
    { apply rangeCurr_entries; [|exact Hs]. intros k v Hk.
      apply (Hsnap c curr k v Hc).
      rewrite (rangeOrder_perm idx curr) in Hk. now apply elem_of_map_to_list in Hk. }
    destruct (rangeCurr relTime c (rangeOrder idx curr) s) as [s1|s1];
      simpl in *; [now apply IH | exact Hr].
Qed.

End EngineInvariants.

(** * The analysers as a whole *)

Section AnalyserInvariants.
Context `{SV : Semver} `{GIT : Git} `{RT : Runtime} `{FL : Flags} `{NET : Net}.

Lemma analyse_sound relTime snapshot paths n0 r :
  analyse relTime snapshot paths n0 = Some r →
  Forall soundRecord (out (final r))
  ∧ (0 < maxChanges → Z.of_nat (length (out (final r))) ≤ maxChanges).
Proof.
  unfold analyse. destruct (commitsTouchingFiles paths) as [hashes|]; [|discriminate].
  destruct PlainOpen; [|discriminate]. intros [= <-]. split.
  - apply commitLoop_keeps; [apply soundRecord_kept | constructor].
  - intros Hpos.
    pose proof (commitLoop_budget relTime snapshot 0 (capCommits hashes)
                  (mkState ∅ [] n0 0) Hpos) as Hb.
    simpl in Hb. specialize (Hb Hpos).
    destruct (commitLoop relTime snapshot 0 (capCommits hashes) _); simpl in *; lia.
Qed.

Lemma analyse_entries {RV : RangeVisitsAll} (E : string → string → Prop)
    relTime snapshot paths n0 r :
  (∀ c curr k v, snapshot c = Some curr → curr !! k = Some v → E k v) →
  analyse relTime snapshot paths n0 = Some r →
  Forall (λ d, E (Dep d) (OldVer d) ∧ E (Dep d) (NewVer d)) (out (final r)).
Proof.
  intros Hsnap. unfold analyse.
  destruct (commitsTouchingFiles paths) as [hashes|]; [|discriminate].
  destruct PlainOpen; [|discriminate]. intros [= <-].
  apply (commitLoop_entries relTime snapshot E); [exact Hsnap|].
  split; [|constructor]. simpl. intros k v Hk. now rewrite lookup_empty in Hk.
Qed.

(** X22. Whatever the repository and the registry hold, each of the
    three analysers returns strict upgrades with a plausible lag only,
    and at most [maxChanges] of them when that flag is positive. *)
Theorem analysers_report_sound_records n0 ds :
  analyzeNPM n0 = Some ds ∨ analyzeGo n0 = Some ds ∨ analyzePy n0 = Some ds →
  Forall soundRecord ds
  ∧ (0 < maxChanges → Z.of_nat (length ds) ≤ maxChanges).
Proof.
  unfold analyzeNPM, analyzeGo, analyzePy, runNPM, runGo, runPy.
  intros [Ha | [Ha | Ha]]; apply fmap_Some in Ha as (r & Hr & ->);
    exact (analyse_sound _ _ _ _ _ Hr).
Qed.

(** X23. Every record of [analyzeGo] names a module by a non-empty path
    of letters, digits, underscore, dot, slash and hyphen, and both its
    versions begin with v, as [goVersions] read them. *)
Theorem analyzeGo_reports_require_entries {RV : RangeVisitsAll} n0 ds :
  analyzeGo n0 = Some ds →
  Forall (λ d, require_entry (Dep d) (OldVer d)
               ∧ require_entry (Dep d) (NewVer d)) ds.
Proof.
  unfold analyzeGo, runGo. intros Ha. apply fmap_Some in Ha as (r & Hr & ->).
  refine (analyse_entries require_entry _ _ _ _ _ _ Hr).
  intros c curr k v. unfold snapshotGo. destruct (File c "go.mod"); [|discriminate].
  intros [= <-]. apply goVersions_entries.
Qed.

(** X24. Every record of [analyzePy] names its package in lower case,
    whichever of the two manifests declared it. *)
Theorem analyzePy_names_are_lower_case {RV : RangeVisitsAll} n0 ds :
  analyzePy n0 = Some ds →
  Forall (λ d, GoStrings.ToLower (Dep d) = Dep d) ds.
Proof.
  unfold analyzePy, runPy. intros Ha. apply fmap_Some in Ha as (r & Hr & ->).
  eapply Forall_impl;
    [refine (analyse_entries (λ k _, Manifest.lowerCase k) _ _ _ _ _ _ Hr) |].
  - intros c curr k v. unfold snapshotPy. destruct (Nat.eqb _ 0); [discriminate|].
    intros [= <-]. apply mergedPy_keysLower.
  - now intros d [Hd _].
Qed.

(** X25. No version in a record of [analyzeNPM] begins with a range
    operator or a space: [npmVersions] has cut them before the walk
    compares anything. *)
Theorem analyzeNPM_versions_are_bare {RV : RangeVisitsAll} n0 ds :
  analyzeNPM n0 = Some ds →
  Forall (λ d, noLeading "^~>=< " (OldVer d) ∧ noLeading "^~>=< " (NewVer d)) ds.
Proof.
  unfold analyzeNPM, runNPM. intros Ha. apply fmap_Some in Ha as (r & Hr & ->).
  refine (analyse_entries (λ _ v, noLeading "^~>=< " v) _ _ _ _ _ _ Hr).
  intros c curr k v. unfold snapshotNPM. destruct (File c "package.json"); [|discriminate].
  intros [= <-]. apply npmVersions_noLeading.
Qed.

End AnalyserInvariants.

(** * Further properties of the resolvers *)

Section ResolverInvariants.
Context `{NET : Net}.

Lemma lookup2_store2_other d pkg ver t p v :
  (p, v) ≠ (pkg, ver) → lookup2 (store2 d pkg ver t) p v = lookup2 d p v.
Proof.
  intros Hne. unfold lookup2, store2.
  destruct (decide (p = pkg)) as [->|Hp].
  - assert (Hv : v ≠ ver) by congruence.
    destruct (d !! pkg) as [m|] eqn:E; rewrite lookup_insert_eq.
    + now rewrite lookup_insert_ne.
    + now rewrite lookup_singleton_ne.
  - destruct (d !! pkg) as [m|]; now rewrite lookup_insert_ne.
Qed.

(** The possible outcomes of a Go or PyPI lookup. *)
Lemma goRelTime_cases module ver n :
  (∃ t, lookup2 (data n) module ver = Some t ∧ goRelTime module ver n = (n, Some t))
  ∨ (lookup2 (data n) module ver = None
     ∧ (goRelTime module ver n
          = (mkNet (data n) (goURL module ver :: requests n), None)
        ∨ ∃ t, goRelTime module ver n
                 = (mkNet (store2 (data n) module ver t)
                          (goURL module ver :: requests n), Some t))).
Proof.
  unfold goRelTime, get. destruct (lookup2 (data n) module ver) as [t|]; [left; eauto|].
  right. split; [reflexivity|].
  destruct (http_Get _ _) as [b|]; [|now left].
  destruct (json_goInfo b) as [t|]; [right; eauto | now left].
Qed.

Lemma pyRel_cases pkg ver n :
  (∃ t, lookup2 (data n) (GoStrings.ToLower pkg) ver = Some t
        ∧ pyRel pkg ver n = (n, Some t))
  ∨ (lookup2 (data n) (GoStrings.ToLower pkg) ver = None
     ∧ (pyRel pkg ver n
          = (mkNet (data n) (pypiURL (GoStrings.ToLower pkg) :: requests n), None)
        ∨ ∃ t, pyRel pkg ver n
                 = (mkNet (store2 (data n) (GoStrings.ToLower pkg) ver t)
                          (pypiURL (GoStrings.ToLower pkg) :: requests n), Some t))).
Proof.
  unfold pyRel, get.
  destruct (lookup2 (data n) (GoStrings.ToLower pkg) ver) as [t|]; [left; eauto|].
  right. split; [reflexivity|].
  destruct (http_Get _ _) as [b|]; [|now left].
  destruct (json_pypiResp b) as [rel|]; [|now left].
  destruct (default [] (rel !! ver)) as [|up ups]; [now left|].
  destruct (time_Parse up) as [t|]; [right; eauto | now left].
Qed.

(** X10. [pyRel] reads package names without regard to case: a lookup
    under any spelling is the lookup under the lower-cased name, with the
    same cache entry and the same request. *)
Theorem pyRel_ignores_case pkg ver n :
  pyRel pkg ver n = pyRel (GoStrings.ToLower pkg) ver n.
Proof.
  unfold pyRel. now rewrite (ToLower_lowerCase pkg).
Qed.

(** X11. A lookup contacts the registry at most once, and only at the
    address of the package (and, for Go, the version) it was asked for. *)
Theorem lookup_sends_at_most_one_request pkg ver n :
  (requests (timeCache_get pkg ver n).1 = requests n
   ∨ requests (timeCache_get pkg ver n).1 = npmURL pkg :: requests n)
  ∧ (requests (goRelTime pkg ver n).1 = requests n
     ∨ requests (goRelTime pkg ver n).1 = goURL pkg ver :: requests n)
  ∧ (requests (pyRel pkg ver n).1 = requests n
     ∨ requests (pyRel pkg ver n).1
       = pypiURL (GoStrings.ToLower pkg) :: requests n).
Proof.
  split; [|split].
  - destruct (lookup2 (data n) pkg ver) as [t|] eqn:E.
    + left. now rewrite (timeCache_get_hit _ _ _ _ E).
    + right. now apply timeCache_get_miss.
  - destruct (lookup2 (data n) pkg ver) as [t|] eqn:E.
    + left. now rewrite (goRelTime_hit _ _ _ _ E).
    + right. now apply goRelTime_miss.
  - destruct (lookup2 (data n) (GoStrings.ToLower pkg) ver) as [t|] eqn:E.
    + left. now rewrite (pyRel_hit _ _ _ _ E).
    + right. now apply pyRel_miss.
Qed.

(** X12. The Go and PyPI caches never lose or change an entry, and a
    lookup that fails leaves them as they were (so the lookup is sent
    again when it is repeated). *)
Theorem go_and_pypi_caches_are_stable pkg ver n :
  (∀ p v t, lookup2 (data n) p v = Some t →
     lookup2 (data (goRelTime pkg ver n).1) p v = Some t)
  ∧ ((goRelTime pkg ver n).2 = None → data (goRelTime pkg ver n).1 = data n)
  ∧ (∀ p v t, lookup2 (data n) p v = Some t →
       lookup2 (data (pyRel pkg ver n).1) p v = Some t)
  ∧ ((pyRel pkg ver n).2 = None → data (pyRel pkg ver n).1 = data n).
Proof.
  split; [|split; [|split]].
  - intros p v t Hl.
    destruct (goRelTime_cases pkg ver n) as [(t0 & _ & ->) | (Hm & [-> | (t0 & ->)])];
      simpl; try exact Hl.
    rewrite lookup2_store2_other; [exact Hl|]. intros [= -> ->]. congruence.
  - destruct (goRelTime_cases pkg ver n) as [(t0 & _ & ->) | (Hm & [-> | (t0 & ->)])];
      simpl; intros E; try reflexivity; discriminate E.
  - intros p v t Hl.
    destruct (pyRel_cases pkg ver n) as [(t0 & _ & ->) | (Hm & [-> | (t0 & ->)])];
      simpl; try exact Hl.
    rewrite lookup2_store2_other; [exact Hl|]. intros [= -> ->]. congruence.
  - destruct (pyRel_cases pkg ver n) as [(t0 & _ & ->) | (Hm & [-> | (t0 & ->)])];
      simpl; intros E; try reflexivity; discriminate E.
Qed.

End ResolverInvariants.

(** * The further properties on concrete histories *)

(** The helpers of [main] and [canon] on sample inputs. *)
Example repoDir_of_clone_addresses :
  Paths.repoDir "https://github.com/psf/requests.git" = "./requests"
  ∧ Paths.repoDir "https://github.com/psf/requests/" = "./requests"
  ∧ Paths.repoDir "" = "./."
  ∧ Paths.repoDir "///" = ".//".
Proof. vm_compute. repeat split; reflexivity. Qed.

Example canon_on_samples :
  @canon xmod_semver "1.2" = "v1.2.0"
  ∧ @canon xmod_semver "v1.2.3+build" = "v1.2.3"
  ∧ @canon xmod_semver "1.0.0-rc.1" = "v1.0.0-rc.1"
  ∧ @canon xmod_semver "latest" = "".
Proof. vm_compute. repeat split; reflexivity. Qed.

Example validateScopeFlags_on_samples :
  @validateScopeFlags noCap = true
  ∧ @validateScopeFlags oneChange = true
  ∧ @validateScopeFlags {| maxCommits := 5; maxChanges := 1; lookBackDays := -1 |} = false
  ∧ @validateScopeFlags {| maxCommits := -1; maxChanges := -1; lookBackDays := -1 |} = false.
Proof. vm_compute. repeat split; reflexivity. Qed.

Example goVersions_of_a_block :
  map_to_list (Manifest.goVersions
    ("module example.com/app" +:+ String "010"
       ("require (" +:+ String "010"
          ("  github.com/a/b v0.4.1 // indirect" +:+ String "010" ")"))))
  = [("github.com/a/b", "v0.4.1")].
Proof. vm_compute. reflexivity. Qed.

Lemma records_are_sound_witness :
  Forall (@soundRecord xmod_semver)
    (out (final (@commitLoop xmod_semver repoScenario1 rt0 noCap (@pyRel pypi21)
                   (@snapshotPy) 0 [hA; hB; hC] (mkState ∅ [] net0 0)))).
Proof.
  refine (@records_are_sound xmod_semver repoScenario1 rt0 noCap (@pyRel pypi21)
            (@snapshotPy) 0 [hA; hB; hC] (mkState ∅ [] net0 0) _).
  apply Forall_nil_2.
Defined.

Lemma resolver_only_for_upgrades_witness :
  ∃ oldV, @candidate xmod_semver (pinned "dep" "1.0.0") "dep" oldV "1.1.0".
Proof.
  refine (@resolver_only_for_upgrades xmod_semver noCap (@pyRel pypi21)
            (commitOf (pyCommit hB (jan 11) "dep==1.1.0")) "dep" "1.1.0"
            (pinned "dep" "1.0.0") _).
  intros E. apply (f_equal requests) in E. vm_compute in E. discriminate E.
Defined.

Lemma unchanged_manifest_is_silent_witness :
  @rangeCurr xmod_semver noCap (@pyRel pypi21)
     (commitOf (pyCommit hB (jan 11) "dep==1.0.0")) [("dep", "1.0.0")]
     (pinned "dep" "1.0.0")
  = Next (pinned "dep" "1.0.0").
Proof.
  refine (@unchanged_manifest_is_silent xmod_semver noCap (@pyRel pypi21)
            (commitOf (pyCommit hB (jan 11) "dep==1.0.0")) [("dep", "1.0.0")]
            (pinned "dep" "1.0.0") _).
  intros dep v Hin. apply list_elem_of_singleton in Hin. injection Hin as -> ->.
  right. vm_compute. reflexivity.
Defined.

Lemma no_budget_no_halt_witness :
  halted (@commitLoop xmod_semver repoScenario1 rt0 noCap (@pyRel pypi21)
            (@snapshotPy) 0 [hA; hB; hC] (mkState ∅ [] net0 0)) = false.
Proof.
  refine (@no_budget_no_halt xmod_semver repoScenario1 rt0 noCap (@pyRel pypi21)
            (@snapshotPy) 0 [hA; hB; hC] (mkState ∅ [] net0 0) _).
  vm_compute. intros E; discriminate E.
Defined.

Lemma single_commit_reports_nothing_witness :
  ∃ p, @commitLoop xmod_semver repoPlain rt0 noCap (@pyRel pypi21)
         (@snapshotPy) 0 [hA] (mkState ∅ [] net0 0)
       = Next (mkState p [] net0 0).
Proof.
  refine (@single_commit_reports_nothing xmod_semver repoPlain rt0 noCap
            (@pyRel pypi21) (@snapshotPy) [hA] (mkState ∅ [] net0 0) _).
  exact (le_n 1).
Defined.

Lemma baseline_change_has_a_record_witness :
  ∃ new d,
    out (final (@commitLoop xmod_semver repoScenario1 rt0 noCap (@pyRel pypi21)
                  (@snapshotPy) 1 [hB] (pinned "dep" "1.0.0"))) = [] ++ new
    ∧ d ∈ new ∧ Dep d = "dep"
    ∧ prev (final (@commitLoop xmod_semver repoScenario1 rt0 noCap (@pyRel pypi21)
                     (@snapshotPy) 1 [hB] (pinned "dep" "1.0.0"))) !! "dep"
      = Some (NewVer d).
Proof.
  refine (@baseline_change_has_a_record xmod_semver repoScenario1 rt0 noCap
            (@pyRel pypi21) (@snapshotPy) 0 [hB] (pinned "dep" "1.0.0") "dep" _).
  vm_compute. intros E; discriminate E.
Defined.

Lemma pyVersions_records_pins_only_witness : pinned_entry "flask" "1.0.2".
Proof.
  refine (pyVersions_records_pins_only "Flask==1.0.2" "flask" "1.0.2" _).
  vm_compute. reflexivity.
Defined.

Lemma cfgVersions_strips_operators_witness :
  "flask" ≠ "" ∧ noLeading "=<>!~ " "2.0".
Proof.
  refine (cfgVersions_strips_operators
            ("[options]" +:+ String "010" "install_requires = flask>=2.0")
            "flask" "2.0" _).
  vm_compute. reflexivity.
Defined.

Lemma goVersions_records_v_versions_witness :
  require_entry "github.com/a/b" "v0.4.1".
Proof.
  refine (goVersions_records_v_versions
            ("require (" +:+ String "010"
               ("  github.com/a/b v0.4.1 // indirect" +:+ String "010" ")"))
            "github.com/a/b" "v0.4.1" _).
  vm_compute. reflexivity.
Defined.

Lemma median_of_odd_is_a_sample_witness :
  median [2; 9; 4]%float ∈ [2; 9; 4]%float.
Proof.
  refine (median_of_odd_is_a_sample [2; 9; 4]%float _).
  exists 1%nat. reflexivity.
Defined.

Lemma canon_accepts_both_spellings_witness :
  @canon xmod_semver "1.2.3" = @semver_Canonical xmod_semver ("v" +:+ "1.2.3")
  ∧ @canon xmod_semver ("v" +:+ "1.2.3") = @canon xmod_semver "1.2.3".
Proof.
  refine (@canon_accepts_both_spellings xmod_semver xmod_semver_canonical "1.2.3" _).
  reflexivity.
Defined.

Lemma canon_is_idempotent_witness :
  @canon xmod_semver (@canon xmod_semver "1.2") = @canon xmod_semver "1.2"
  ∧ (@canon xmod_semver "1.2" = ""
     ∨ GoStrings.HasPrefix (@canon xmod_semver "1.2") "v" = true).
Proof.
  exact (@canon_is_idempotent xmod_semver xmod_semver_canonical "1.2").
Defined.

(** The Go and the npm analyser on a history of two commits each. *)
Example scenario_go_and_npm :
  @analyzeGo xmod_semver repoGo rt0 noCap goproxy21 net0
  = Some [mkDelay "example.com/m" "v1.0.0" "v1.1.0" 5 "b2b2b2b" (jan 11)]
  ∧ @analyzeNPM xmod_semver repoNPM rtNPM noCap npm21 net0
    = Some [mkDelay "left-pad" "1.0.0" "1.1.0" 5 "b2b2b2b" (jan 11)].
Proof. vm_compute. split; reflexivity. Qed.

Lemma analysers_report_sound_records_witness :
  Forall (@soundRecord xmod_semver)
    [mkDelay "dep" "1.0.0" "1.1.0" 10 "b2b2b2b" (jan 11)]
  ∧ (0 < @maxChanges oneChange →
     Z.of_nat (length [mkDelay "dep" "1.0.0" "1.1.0" 10 "b2b2b2b" (jan 11)])
     ≤ @maxChanges oneChange).
Proof.
  refine (@analysers_report_sound_records xmod_semver repoScenario1 rt0 oneChange
            pypi21 net0 [mkDelay "dep" "1.0.0" "1.1.0" 10 "b2b2b2b" (jan 11)] _).
  right. right. vm_compute. reflexivity.
Defined.

Lemma analyzeGo_reports_require_entries_witness :
  Forall (λ d, require_entry (Dep d) (OldVer d) ∧ require_entry (Dep d) (NewVer d))
    [mkDelay "example.com/m" "v1.0.0" "v1.1.0" 5 "b2b2b2b" (jan 11)].
Proof.
  refine (@analyzeGo_reports_require_entries xmod_semver repoGo rt0 noCap goproxy21
            (tableRuntime_visits_all []) net0
            [mkDelay "example.com/m" "v1.0.0" "v1.1.0" 5 "b2b2b2b" (jan 11)] _).
  vm_compute. reflexivity.
Defined.

Lemma analyzePy_names_are_lower_case_witness :
  Forall (λ d, GoStrings.ToLower (Dep d) = Dep d)
    [mkDelay "dep" "1.0.0" "1.1.0" 10 "b2b2b2b" (jan 11)].
Proof.
  refine (@analyzePy_names_are_lower_case xmod_semver repoScenario1 rt0 noCap pypi21
            (tableRuntime_visits_all []) net0
            [mkDelay "dep" "1.0.0" "1.1.0" 10 "b2b2b2b" (jan 11)] _).
  vm_compute. reflexivity.
Defined.

Lemma analyzeNPM_versions_are_bare_witness :
  Forall (λ d, noLeading "^~>=< " (OldVer d) ∧ noLeading "^~>=< " (NewVer d))
    [mkDelay "left-pad" "1.0.0" "1.1.0" 5 "b2b2b2b" (jan 11)].
Proof.
  refine (@analyzeNPM_versions_are_bare xmod_semver repoNPM rtNPM noCap npm21
            (tableRuntime_visits_all _) net0
            [mkDelay "left-pad" "1.0.0" "1.1.0" 5 "b2b2b2b" (jan 11)] _).
  vm_compute. reflexivity.
Defined.
